(** * podman [system connection add] / [context create]

    A shallow embedding of [cmd/podman/system/connection/add.go]:
    the legacy destination translator [translateDest], the scheme
    defaulting shared by [add] and [create], the scheme-specific
    validation of [add], and the registry update that both commands
    perform before handing the configuration to [cfg.Write()].

    Go strings are byte strings and are modelled by [string]; the
    connection map is a [gmap string Destination] under an [option] that
    tells a nil map from an allocated one.  Calls that leave the package
    ([net/url], [os.Stat], [ssh.Create], [config.ReadCustomConfig],
    [cfg.Write], [logrus.Warnf]) are collaborators: their answers come
    from a [Collaborators] instance and every call is recorded, in
    program order, in the trace of the run. *)

From Stdlib Require Import ZArith Ascii String List Bool Lia.
From stdpp Require Import base strings gmap.

Import ListNotations.
Local Open Scope string_scope.
Local Open Scope list_scope.

(** ** Errors *)

(** The answer of [os.Stat] when it fails.  [add] only ever asks two
    questions about it, [errors.Is(err, os.ErrNotExist)] and
    [errors.Is(err, os.ErrPermission)]. *)
Record OsError := {
  os_error_text : string;
  is_ErrNotExist : bool;
  is_ErrPermission : bool
}.

(** One constructor per [return] of a non-nil error in the file.  Errors
    of collaborators are carried as they were received. *)
Inductive error :=
| ErrURLParse (e : string)            (* add.go:116, 214 *)
| ErrInvalidSSHMode                   (* add.go:131 *)
| ErrSSHCreate (e : string)           (* add.go:136 *)
| ErrIdentityUnix                     (* add.go:139 *)
| ErrStat (e : OsError)               (* add.go:153 *)
| ErrNotSocket (path : string)        (* add.go:155 *)
| ErrSocketPathTcp                    (* add.go:159 *)
| ErrIdentityTcp                      (* add.go:162 *)
| ErrTcpPort                          (* add.go:165 *)
| ErrReadCustomConfig (e : string)    (* add.go:173, 219 *)
| ErrWrite (e : string)               (* add.go:198, 234 *)
| ErrHostRequired                     (* add.go:246 *)
| ErrAdditionalOptions (rest : string)(* add.go:251 *).

Definition dquote : string := String (ascii_of_nat 34) EmptyString.

(** The message literal (or format string) of each error built in this
    file; a propagated error keeps its own text. *)
Definition error_format (e : error) : string :=
  match e with
  | ErrURLParse t | ErrSSHCreate t | ErrReadCustomConfig t | ErrWrite t => t
  | ErrStat o => os_error_text o
  | ErrInvalidSSHMode => "invalid ssh mode"
  | ErrIdentityUnix => "--identity option not supported for unix scheme"
  | ErrNotSocket _ => "%q exists and is not a unix domain socket"
  | ErrSocketPathTcp => "--socket-path option not supported for tcp scheme"
  | ErrIdentityTcp => "--identity option not supported for tcp scheme"
  | ErrTcpPort =>
      "tcp scheme requires a port either via --port or in destination URL"
  | ErrHostRequired =>
      dquote +:+ "host" +:+ dquote +:+ " is requited for --docker option"
  | ErrAdditionalOptions _ => "--docker additional options %q not supported"
  end.

(** The argument substituted for [%q], where there is one. *)
Definition error_arg (e : error) : option string :=
  match e with
  | ErrNotSocket p => Some p
  | ErrAdditionalOptions r => Some r
  | _ => None
  end.

(** The error taxonomy of the design document.  The two errors outside of
    it (a bad [--ssh] mode, a failure inside [ssh.Create]) belong to the
    connection-setup collaborator. *)
Inductive ErrorClass :=
| InvalidOption | UnsupportedOption | InvalidDestination
| FilesystemError | PersistenceError | ConnectionSetupError.

Definition classify (e : error) : ErrorClass :=
  match e with
  | ErrHostRequired => InvalidOption
  | ErrAdditionalOptions _ | ErrIdentityUnix | ErrSocketPathTcp
  | ErrIdentityTcp => UnsupportedOption
  | ErrURLParse _ | ErrNotSocket _ | ErrTcpPort => InvalidDestination
  | ErrStat _ => FilesystemError
  | ErrReadCustomConfig _ | ErrWrite _ => PersistenceError
  | ErrInvalidSSHMode | ErrSSHCreate _ => ConnectionSetupError
  end.

(** A Go [(T, error)] pair with exactly one side meaningful. *)
Inductive result (A : Type) :=
| Ok (a : A)
| Err (e : error).
Arguments Ok {A} a.
Arguments Err {A} e.

(** ** The pieces of package [strings] that [translateDest] uses *)

Module strings.

(** [strings.Cut(s, sep)] for a one-byte separator: the text before
    and after the first occurrence, if there is one. *)
Fixpoint Cut (s : string) (sep : ascii) : option (string * string) :=
  match s with
  | EmptyString => None
  | String c s' =>
      if Ascii.eqb c sep then Some (EmptyString, s')
      else match Cut s' sep with
           | Some (a, b) => Some (String c a, b)
           | None => None
           end
  end.

(** [strings.SplitN(s, sep, n)] for [n >= 0]: at most [n] pieces, the
    last one being the unsplit remainder. *)
Fixpoint SplitN (s : string) (sep : ascii) (n : nat) : list string :=
  match n with
  | O => []
  | S O => [s]
  | S n' =>
      match Cut s sep with
      | Some (a, b) => a :: SplitN b sep n'
      | None => [s]
      end
  end.

(** [strings.Split(s, sep)]: every piece; an input without separator
    (the empty one included) gives the one-element list [[s]]. *)
Fixpoint Split (s : string) (sep : ascii) : list string :=
  match s with
  | EmptyString => [EmptyString]
  | String c s' =>
      if Ascii.eqb c sep then EmptyString :: Split s' sep
      else match Split s' sep with
           | h :: t => String c h :: t
           | [] => [String c EmptyString]
           end
  end.

(** [strings.Join(elems, sep)]. *)
Fixpoint Join (elems : list string) (sep : ascii) : string :=
  match elems with
  | [] => EmptyString
  | [e] => e
  | e :: rest => e +:+ String sep (Join rest sep)
  end.

(** [sep] occurs in [s]. *)
Fixpoint Contains (s : string) (sep : ascii) : bool :=
  match s with
  | EmptyString => false
  | String c s' => Ascii.eqb c sep || Contains s' sep
  end.

End strings.

(** ** [translateDest] (add.go:237-255) *)

(** [split[i]]; every index used below is in range by the length test
    that precedes it, so the default is never returned. *)
Definition idx (l : list string) (i : nat) : string := nth i l EmptyString.

Definition translateDest (path : string) : result string :=
  if String.eqb path "" then Ok ""
  else
    let split := strings.SplitN path "=" 2 in
    if Nat.eqb (length split) 1 then Ok (idx split 0)
    else if negb (String.eqb (idx split 0) "host") then Err ErrHostRequired
    else
      let vals := strings.Split (idx split 1) "," in
      if Nat.ltb 1 (length vals)
      then Err (ErrAdditionalOptions (strings.Join (skipn 1 vals) ","))
      else Ok (idx vals 0).

(** ** Scheme defaulting (add.go:109-113 and 206-210) *)

Definition in_range (lo hi : nat) (c : ascii) : bool :=
  Nat.leb lo (nat_of_ascii c) && Nat.leb (nat_of_ascii c) hi.

(** [[A-Za-z]] *)
Definition is_letter (c : ascii) : bool :=
  in_range 65 90 c || in_range 97 122 c.

(** [[A-Za-z0-9+.-]] *)
Definition is_scheme_char (c : ascii) : bool :=
  is_letter c || in_range 48 57 c
  || Ascii.eqb c "+" || Ascii.eqb c "." || Ascii.eqb c "-".

(** [[A-Za-z0-9+.-]*://] at the head of [s]: either the literal is
    there, or one more character of the class is consumed. *)
Fixpoint match_scheme_rest (s : string) : bool :=
  String.prefix "://" s
  || match s with
     | String c s' => is_scheme_char c && match_scheme_rest s'
     | EmptyString => false
     end.

(** [regexp.MatchString("^[A-Za-z][A-Za-z0-9+.-]*://", dest)].  The
    pattern is a constant that compiles, so the error result of
    [MatchString] is always nil and lines 110 and 207 are dead. *)
Definition MatchString_scheme (dest : string) : bool :=
  match dest with
  | String c s' => is_letter c && match_scheme_rest s'
  | EmptyString => false
  end.

Definition defaultScheme (dest : string) : string :=
  if MatchString_scheme dest then dest else "ssh://" +:+ dest.

(** The same rule in the words of the design document: a letter, then
    letters, digits, [+], [.] or [-], then [://]. *)
Definition SchemePrefixed (dest : string) : Prop :=
  exists c scheme rest,
    dest = String c (scheme +:+ "://" +:+ rest)
    /\ is_letter c = true
    /\ Forall (fun x => is_scheme_char x = true) (list_ascii_of_string scheme).

(** ** Data of the collaborating packages *)

Module url.
(** The fields of [net/url.URL] that a destination can fill. *)
Record URL := {
  Scheme : string;
  User : string;
  Host : string;
  Path : string;
  RawQuery : string;
  Fragment : string
}.

(** [uri.Path = p] *)
Definition set_Path (u : URL) (p : string) : URL :=
  {| Scheme := Scheme u; User := User u; Host := Host u; Path := p;
     RawQuery := RawQuery u; Fragment := Fragment u |}.
End url.

Module os.
Record FileInfo := { Mode : Z }.

(** [os.ModeSocket = 1 << 24] in [io/fs]. *)
Definition ModeSocket : Z := Z.shiftl 1 24.
End os.

Module ssh.
Inductive EngineMode := NativeMode | GolangMode | InvalidMode.

Record ConnectionCreateOptions := {
  Name : string;
  Path : string;
  Identity : string;
  Port : Z;
  Socket : string;
  Default : bool
}.
End ssh.

Module config.
Record Destination := {
  URI : string;
  Identity : string
}.

(** [cfg.Engine]: the active-service name and the connection map;
    [None] is Go's nil map, [Some ∅] a map that is allocated and
    empty. *)
Record Config := {
  ActiveService : string;
  ServiceDestinations : option (gmap string Destination)
}.

(** [dst.Identity = i] *)
Definition set_Identity (d : Destination) (i : string) : Destination :=
  {| URI := URI d; Identity := i |}.

(** [cfg.Engine.ActiveService = name] *)
Definition set_ActiveService (cfg : Config) (name : string) : Config :=
  {| ActiveService := name;
     ServiceDestinations := ServiceDestinations cfg |}.

(** [cfg.Engine.ServiceDestinations = m], for a map [m] that is not nil *)
Definition set_ServiceDestinations (cfg : Config)
    (m : gmap string Destination) : Config :=
  {| ActiveService := ActiveService cfg; ServiceDestinations := Some m |}.
End config.

(** ** The command line *)

(** The package variable [cOpts], bound to the flags by [init]. *)
Record Opts := {
  Identity : string;
  Port : Z;
  UDSPath : string;
  Default : bool
}.

(** What [add] reads of its [cobra.Command]: the bound flag values and
    [cmd.Flags().Changed(name)].  [cmd.Flag("socket-path").Value.String()]
    is [UDSPath], the variable that flag is bound to. *)
Record Cmd := {
  cOpts : Opts;
  Changed : string -> bool
}.

(** ** Collaborators and runs *)

Inductive Warning :=
| WarnNotExist (path : string)        (* add.go:149 *)
| WarnPermission (path : string)      (* add.go:151 *)
| WarnUnknownScheme (scheme : string) (* add.go:168 *).

(** A call that leaves the package. *)
Inductive Event :=
| EvWarn (w : Warning)
| EvStat (path : string)
| EvSSHCreate (o : ssh.ConnectionCreateOptions) (m : ssh.EngineMode)
| EvReadCustomConfig
| EvWrite (cfg : config.Config).

(** What the collaborators answer.  A failure is [inl] with its text (or
    [Some] text where nothing else is returned). *)
Class Collaborators := {
  url_Parse : string -> string + url.URL;
  URL_String : url.URL -> string;
  URL_Port : url.URL -> string;
  os_Stat : string -> OsError + os.FileInfo;
  PodmanConfig_SSHMode : string;
  ssh_DefineMode : string -> ssh.EngineMode;
  ssh_Create : ssh.ConnectionCreateOptions -> ssh.EngineMode -> option string;
  config_ReadCustomConfig : string + config.Config;
  Config_Write : config.Config -> option string
}.

(** A run: the calls made so far, and the value or the error returned. *)
Definition Run (A : Type) : Type := (list Event * result A)%type.

#[export] Instance Run_ret : MRet Run := fun A a => ([], Ok a).

#[export] Instance Run_bind : MBind Run := fun A B f m =>
  match m with
  | (t, Ok a) => let '(t', r) := f a in (t ++ t', r)
  | (t, Err e) => (t, Err e)
  end.

Definition fail {A} (e : error) : Run A := ([], Err e).

Definition lift {A} (r : result A) : Run A := ([], r).

Definition trace {A} (r : Run A) : list Event := fst r.

Definition returned {A} (r : Run A) : result A := snd r.

Section Commands.
Context `{E : Collaborators}.

Definition warn (w : Warning) : Run unit := ([EvWarn w], Ok tt).

Definition stat (path : string) : Run (OsError + os.FileInfo) :=
  ([EvStat path], Ok (os_Stat path)).

Definition sshCreate (o : ssh.ConnectionCreateOptions) (m : ssh.EngineMode)
  : Run unit :=
  ([EvSSHCreate o m],
   match ssh_Create o m with
   | Some e => Err (ErrSSHCreate e)
   | None => Ok tt
   end).

Definition readCustomConfig : Run config.Config :=
  ([EvReadCustomConfig],
   match config_ReadCustomConfig with
   | inl e => Err (ErrReadCustomConfig e)
   | inr cfg => Ok cfg
   end).

Definition write (cfg : config.Config) : Run unit :=
  ([EvWrite cfg],
   match Config_Write cfg with
   | Some e => Err (ErrWrite e)
   | None => Ok tt
   end).

(** add.go:108-117 and 202-215: default the scheme, then [url.Parse]. *)
Definition parseDestination (dest : string) : result url.URL :=
  match url_Parse (defaultScheme dest) with
  | inl e => Err (ErrURLParse e)
  | inr uri => Ok uri
  end.

(** add.go:176-197, on the configuration just read. *)
Definition add_upsert (cmd : Cmd) (name uri : string) (cfg : config.Config)
  : config.Config :=
  let cfg :=
    if Changed cmd "default"
    then (if Default (cOpts cmd) then config.set_ActiveService cfg name
          else cfg)
    else cfg in
  let dst := {| config.URI := uri; config.Identity := "" |} in
  let dst :=
    if Changed cmd "identity"
    then config.set_Identity dst (Identity (cOpts cmd)) else dst in
  match config.ServiceDestinations cfg with
  | None =>
      config.set_ActiveService
        (config.set_ServiceDestinations cfg {[ name := dst ]}) name
  | Some m => config.set_ServiceDestinations cfg (<[ name := dst ]> m)
  end.

(** add.go:146-156: the [switch] over the answer of [os.Stat]. *)
Definition checkSocket (path : string) : Run unit :=
  st ← stat path;
  match st with
  | inl err =>
      if is_ErrNotExist err then warn (WarnNotExist path)
      else if is_ErrPermission err then warn (WarnPermission path)
      else fail (ErrStat err)
  | inr info =>
      if Z.eqb (Z.land (os.Mode info) os.ModeSocket) 0
      then fail (ErrNotSocket path)
      else mret tt
  end.

(** add.go:171-198. *)
Definition store (cmd : Cmd) (name : string) (uri : url.URL) : Run unit :=
  cfg ← readCustomConfig;
  write (add_upsert cmd name (URL_String uri) cfg).

(** add.go:100-107: what [ssh.Create] is given. *)
Definition entitiesOf (cmd : Cmd) (args0 args1 : string)
  : ssh.ConnectionCreateOptions :=
  {| ssh.Port := Port (cOpts cmd);
     ssh.Path := args1;
     ssh.Identity := Identity (cOpts cmd);
     ssh.Name := args0;
     ssh.Socket := UDSPath (cOpts cmd);
     ssh.Default := Default (cOpts cmd) |}.

(** add.go:119-121, and again 142-144. *)
Definition applySocketPath (cmd : Cmd) (uri : url.URL) : url.URL :=
  if Changed cmd "socket-path"
  then url.set_Path uri (UDSPath (cOpts cmd)) else uri.

(** add.go:137-169: the cases of the [switch] that fall out of it into
    the code that follows; the value is the URI as they leave it. *)
Definition validateScheme (cmd : Cmd) (uri : url.URL) : Run url.URL :=
  if String.eqb (url.Scheme uri) "unix" then
    if Changed cmd "identity" then fail ErrIdentityUnix
    else
      let uri := applySocketPath cmd uri in
      checkSocket (url.Path uri);; mret uri
  else if String.eqb (url.Scheme uri) "tcp" then
    if Changed cmd "socket-path" then fail ErrSocketPathTcp
    else if Changed cmd "identity" then fail ErrIdentityTcp
    else if String.eqb (URL_Port uri) "" then fail ErrTcpPort
    else mret uri
  else
    warn (WarnUnknownScheme (url.Scheme uri));; mret uri.

(** [add] (add.go:97-199); [args0] and [args1] are the two arguments
    that [cobra.ExactArgs(2)] guarantees.  The [ssh] case of the
    [switch] returns what [ssh.Create] returns; the other cases
    continue with [store]. *)
Definition add (cmd : Cmd) (args0 args1 : string) : Run unit :=
  let entities := entitiesOf cmd args0 args1 in
  uri ← lift (parseDestination args1);
  let uri := applySocketPath cmd uri in
  let sshMode := ssh_DefineMode PodmanConfig_SSHMode in
  match sshMode with
  | ssh.InvalidMode => fail ErrInvalidSSHMode
  | _ =>
      if String.eqb (url.Scheme uri) "ssh" then sshCreate entities sshMode
      else
        uri ← validateScheme cmd uri;
        store cmd args0 uri
  end.

(** add.go:222-233, on the configuration just read. *)
Definition create_upsert (name uri : string) (cfg : config.Config)
  : config.Config :=
  let dst := {| config.URI := uri; config.Identity := "" |} in
  match config.ServiceDestinations cfg with
  | None =>
      config.set_ActiveService
        (config.set_ServiceDestinations cfg {[ name := dst ]}) name
  | Some m => config.set_ServiceDestinations cfg (<[ name := dst ]> m)
  end.

(** [create] (add.go:201-235); [dockerPath] is the value of [--docker]
    and [args0] the one argument of [cobra.ExactArgs(1)]. *)
Definition create (dockerPath args0 : string) : Run unit :=
  dest ← lift (translateDest dockerPath);
  uri ← lift (parseDestination dest);
  cfg ← readCustomConfig;
  write (create_upsert args0 (URL_String uri) cfg).

End Commands.

(** ** Vocabulary of the statements *)

(** A call that neither reads nor writes the connection registry, nor
    hands control to a collaborator that could. *)
Definition quiet (ev : Event) : bool :=
  match ev with
  | EvWarn _ | EvStat _ => true
  | EvSSHCreate _ _ | EvReadCustomConfig | EvWrite _ => false
  end.

(** The errors of destination parsing and of scheme-specific validation:
    an invalid URI, an unsupported override, a missing tcp port, a unix
    path that is not a socket, a fatal [stat] error. *)
Definition validation_error (e : error) : bool :=
  match e with
  | ErrURLParse _ | ErrIdentityUnix | ErrSocketPathTcp | ErrIdentityTcp
  | ErrTcpPort | ErrNotSocket _ | ErrStat _ => true
  | _ => false
  end.

(** [cfg.Engine.ServiceDestinations[name]], with its presence flag; a
    nil map has no entry. *)
Definition connection (cfg : config.Config) (name : string)
  : option config.Destination :=
  match config.ServiceDestinations cfg with
  | Some m => m !! name
  | None => None
  end.

(** The record [add] builds at lines 182-188. *)
Definition record_of (cmd : Cmd) (uri : string) : config.Destination :=
  {| config.URI := uri;
     config.Identity :=
       if Changed cmd "identity" then Identity (cOpts cmd) else "" |}.





(** "A unix destination with [--identity], and a tcp destination with
    [--identity] or [--socket-path], always fail with an error of class
    UnsupportedOption": the first half of the incompatibility rule, for
    every destination that parses. *)
Definition unsupported_override_always_reported : Prop :=
  forall (E : Collaborators) (cmd : Cmd) (args0 args1 : string)
         (uri : url.URL),
    parseDestination args1 = Ok uri ->
    (url.Scheme uri = "unix" /\ Changed cmd "identity" = true)
    \/ (url.Scheme uri = "tcp"
        /\ (Changed cmd "identity" = true
            \/ Changed cmd "socket-path" = true)) ->
    exists calls e,
      add cmd args0 args1 = (calls, Err e)
      /\ classify e = UnsupportedOption.

(** The active-service pointer after an upsert under [name] into [cfg]:
    [name] when the map was nil; otherwise [name] when a default was
    asked for, and the former pointer when it was not. *)
Definition active_after (name : string) (asked : bool) (cfg : config.Config)
  : string :=
  match config.ServiceDestinations cfg with
  | None => name
  | Some _ => if asked then name else config.ActiveService cfg
  end.

(** The active-service pointer names a connection of the map. *)
Definition active_is_stored (cfg : config.Config) : Prop :=
  is_Some (connection cfg (config.ActiveService cfg)).

(** Two command lines that differ at most in [--port]. *)
Definition agree_but_port (cmd cmd' : Cmd) : Prop :=
  Identity (cOpts cmd) = Identity (cOpts cmd')
  /\ UDSPath (cOpts cmd) = UDSPath (cOpts cmd')
  /\ Default (cOpts cmd) = Default (cOpts cmd')
  /\ forall flag, flag <> "port" -> Changed cmd flag = Changed cmd' flag.

(** None of the flags that [add] looks at after the scheme [switch] was
    given. *)
Definition no_flag_given (cmd : Cmd) : Prop :=
  Changed cmd "default" = false
  /\ Changed cmd "identity" = false
  /\ Changed cmd "socket-path" = false.

Definition is_stat (ev : Event) : bool :=
  match ev with
  | EvStat _ => true
  | _ => false
  end.

(** The run makes the calls [calls] and then goes on as [k] does. *)
Definition continues_with {A} (calls : list Event) (k : Run A) : Run A :=
  (calls ++ trace k, returned k).

(** The five ways through [add]: [url.Parse] fails; the [--ssh] mode is
    invalid; the scheme is [ssh] and [ssh.Create] takes over; the
    validation of another scheme fails; it passes and the record is
    stored. *)
Inductive add_path `{Collaborators} (cmd : Cmd) (args0 args1 : string)
  : Run unit -> Prop :=
| path_unparsed e :
    parseDestination args1 = Err e ->
    add_path cmd args0 args1 ([], Err e)
| path_invalid_mode uri :
    parseDestination args1 = Ok uri ->
    ssh_DefineMode PodmanConfig_SSHMode = ssh.InvalidMode ->
    add_path cmd args0 args1 ([], Err ErrInvalidSSHMode)
| path_ssh uri :
    parseDestination args1 = Ok uri ->
    ssh_DefineMode PodmanConfig_SSHMode <> ssh.InvalidMode ->
    url.Scheme uri = "ssh" ->
    add_path cmd args0 args1
      (sshCreate (entitiesOf cmd args0 args1)
                 (ssh_DefineMode PodmanConfig_SSHMode))
| path_rejected uri calls e :
    parseDestination args1 = Ok uri ->
    ssh_DefineMode PodmanConfig_SSHMode <> ssh.InvalidMode ->
    url.Scheme uri <> "ssh" ->
    validateScheme cmd (applySocketPath cmd uri) = (calls, Err e) ->
    add_path cmd args0 args1 (calls, Err e)
| path_stored uri calls :
    parseDestination args1 = Ok uri ->
    ssh_DefineMode PodmanConfig_SSHMode <> ssh.InvalidMode ->
    url.Scheme uri <> "ssh" ->
    validateScheme cmd (applySocketPath cmd uri)
    = (calls, Ok (applySocketPath cmd uri)) ->
    add_path cmd args0 args1
      (calls ++ trace (store cmd args0 (applySocketPath cmd uri)),
       returned (store cmd args0 (applySocketPath cmd uri))).

(** ** A concrete set of collaborators

    Used to run the commands on concrete command lines.  [sample_Parse],
    [sample_String] and [sample_Port] stand in for [net/url] on the plain
    destinations [scheme://host[:port][/path]] (host of letters, digits,
    [.] and [-]; port of digits; path of letters, digits, [/], [.], [_]
    and [-]), where parsing involves no user info, escaping, query or
    fragment.  Outside of that fragment the parser answers with an error
    and nothing below relies on what it says there. *)

Definition lower (c : ascii) : ascii :=
  if in_range 65 90 c then ascii_of_nat (nat_of_ascii c + 32) else c.

Fixpoint forall_chars (p : ascii -> bool) (s : string) : bool :=
  match s with
  | EmptyString => true
  | String c s' => p c && forall_chars p s'
  end.

Fixpoint map_chars (f : ascii -> ascii) (s : string) : string :=
  match s with
  | EmptyString => EmptyString
  | String c s' => String (f c) (map_chars f s')
  end.

Definition is_host_char (c : ascii) : bool :=
  is_letter c || in_range 48 57 c || Ascii.eqb c "." || Ascii.eqb c "-".

Definition is_path_char (c : ascii) : bool :=
  is_host_char c || Ascii.eqb c "/" || Ascii.eqb c "_".

(** The authority and the path of [rest], the text after [scheme://]. *)
Definition split_authority (rest : string) : string * string :=
  match strings.Cut rest "/" with
  | Some (a, p) => (a, String "/" p)
  | None => (rest, EmptyString)
  end.

Definition plain_host (h : string) : bool :=
  match strings.Cut h ":" with
  | Some (name, port) =>
      forall_chars is_host_char name && forall_chars (in_range 48 57) port
  | None => forall_chars is_host_char h
  end.

Definition sample_Parse (s : string) : string + url.URL :=
  match strings.Cut s ":" with
  | Some (scheme, String "/" (String "/" rest)) =>
      let '(authority, path) := split_authority rest in
      if MatchString_scheme s && plain_host authority
         && forall_chars is_path_char path
      then inr {| url.Scheme := map_chars lower scheme; url.User := "";
                  url.Host := authority; url.Path := path;
                  url.RawQuery := ""; url.Fragment := "" |}
      else inl "outside of the plain fragment"
  | _ => inl "outside of the plain fragment"
  end.

(** [uri.String()] on a URL of the fragment: the scheme, [//] when
    there is a host or a path, the host, the path. *)
Definition sample_String (u : url.URL) : string :=
  url.Scheme u +:+ ":"
  +:+ (if String.eqb (url.Host u) "" && String.eqb (url.Path u) ""
       then "" else "//" +:+ url.Host u)
  +:+ (if negb (String.eqb (url.Host u) "") && negb (String.prefix "/" (url.Path u))
          && negb (String.eqb (url.Path u) "")
       then "/" +:+ url.Path u else url.Path u).

(** [uri.Port()]: the digits after the colon of the host. *)
Definition sample_Port (u : url.URL) : string :=
  match strings.Cut (url.Host u) ":" with
  | Some (_, port) => port
  | None => EmptyString
  end.

(** A small file system: a socket, a regular file, a path that may not
    be read, a path whose [stat] fails for another reason; every other
    path does not exist. *)
Definition sample_Stat (path : string) : OsError + os.FileInfo :=
  if String.eqb path "/run/podman/podman.sock"
  then inr {| os.Mode := Z.lor os.ModeSocket 432 |}
  else if String.eqb path "/etc/hostname"
  then inr {| os.Mode := 420 |}
  else if String.eqb path "/root/podman.sock"
  then inl {| os_error_text := "permission denied";
              is_ErrNotExist := false; is_ErrPermission := true |}
  else if String.eqb path "/mnt/stale/podman.sock"
  then inl {| os_error_text := "stale NFS file handle";
              is_ErrNotExist := false; is_ErrPermission := false |}
  else inl {| os_error_text := "no such file or directory";
              is_ErrNotExist := true; is_ErrPermission := false |}.

(** [ssh.DefineMode] of containers/common. *)
Definition sample_DefineMode (flag : string) : ssh.EngineMode :=
  if String.eqb flag "native" then ssh.NativeMode
  else if String.eqb flag "golang" then ssh.GolangMode
  else ssh.InvalidMode.

(** Collaborators that never fail: [--ssh] is [mode], the configuration
    on disk is [stored], [ssh.Create] and [Write] return nil. *)
Definition sample (mode : string) (stored : config.Config) : Collaborators :=
  {| url_Parse := sample_Parse;
     URL_String := sample_String;
     URL_Port := sample_Port;
     os_Stat := sample_Stat;
     PodmanConfig_SSHMode := mode;
     ssh_DefineMode := sample_DefineMode;
     ssh_Create := fun _ _ => None;
     config_ReadCustomConfig := inr stored;
     Config_Write := fun _ => None |}.

(** The same collaborators with a configuration file that cannot be
    read. *)
Definition unreadable : Collaborators :=
  {| url_Parse := sample_Parse;
     URL_String := sample_String;
     URL_Port := sample_Port;
     os_Stat := sample_Stat;
     PodmanConfig_SSHMode := "golang";
     ssh_DefineMode := sample_DefineMode;
     ssh_Create := fun _ _ => None;
     config_ReadCustomConfig := inl "permission denied";
     Config_Write := fun _ => None |}.


(** No connection has ever been stored: the map is nil. *)
Definition fresh : config.Config :=
  {| config.ActiveService := ""; config.ServiceDestinations := None |}.

(** One connection, [laptop], which is the active one. *)
Definition laptop_dst : config.Destination :=
  {| config.URI := "ssh://laptop:22/run/podman/podman.sock";
     config.Identity := "" |}.

Definition one_connection : config.Config :=
  {| config.ActiveService := "laptop";
     config.ServiceDestinations := Some {[ "laptop" := laptop_dst ]} |}.

(** A command line: the values of the four flags, and the names of those
    that were given. *)
Definition cmdline (o : Opts) (given : list string) : Cmd :=
  {| cOpts := o;
     Changed := fun name => existsb (String.eqb name) given |}.

(** The values the flags have when none is given (add.go:68-79). *)
Definition defaults : Opts :=
  {| Identity := ""; Port := 22; UDSPath := ""; Default := false |}.

(** [podman system connection add NAME DESTINATION], no flag given. *)
Definition plain : Cmd := cmdline defaults [].

(** [podman system connection add --port 8080 NAME DESTINATION]. *)
Definition with_port_8080 : Cmd :=
  cmdline {| Identity := ""; Port := 8080; UDSPath := ""; Default := false |}
          ["port"].

(** The flag values of [--identity ~/.ssh/dev_rsa --socket-path /x]. *)
Definition with_identity : Opts :=
  {| Identity := "~/.ssh/dev_rsa"; Port := 22;
     UDSPath := "/x"; Default := false |}.

(** [podman system connection add --default NAME DESTINATION]. *)
Definition with_default : Cmd :=
  cmdline {| Identity := ""; Port := 22; UDSPath := ""; Default := true |}
          ["default"].

(** The collaborators of the examples: [--ssh=golang], one connection
    stored. *)
Definition golang : Collaborators := sample "golang" one_connection.


(** * Properties *)

(** ** Package [strings] *)

Section StringFacts.
Variable sep : ascii.

Lemma Cut_absent (s : string) :
  strings.Contains s sep = false -> strings.Cut s sep = None.
Proof.
  induction s as [|c s IH]; simpl; [reflexivity|].
  intros Hc. apply orb_false_iff in Hc as [Hc Hs].
  rewrite Hc, (IH Hs). reflexivity.
Qed.

Lemma Cut_first (a b : string) :
  strings.Contains a sep = false ->
  strings.Cut (a +:+ String sep b) sep = Some (a, b).
Proof.
  induction a as [|c a IH]; simpl.
  - intros _. rewrite Ascii.eqb_refl. reflexivity.
  - intros Hc. apply orb_false_iff in Hc as [Hc Ha].
    rewrite Hc, (IH Ha). reflexivity.
Qed.

Lemma Cut_present (s : string) :
  strings.Contains s sep = true ->
  exists a b, s = a +:+ String sep b /\ strings.Contains a sep = false.
Proof.
  induction s as [|c s IH]; simpl; [discriminate|].
  destruct (Ascii.eqb c sep) eqn:Hc; simpl.
  - intros _. apply Ascii.eqb_eq in Hc as ->.
    exists EmptyString, s. split; reflexivity.
  - intros Hs. destruct (IH Hs) as (a & b & -> & Ha).
    exists (String c a), b. simpl. rewrite Hc, Ha. split; reflexivity.
Qed.

Lemma Split_cons (s : string) : exists h t, strings.Split s sep = h :: t.
Proof.
  induction s as [|c s (h & t & IH)]; simpl; [eauto|].
  destruct (Ascii.eqb c sep); [eauto|]. rewrite IH. eauto.
Qed.

Lemma Split_absent (s : string) :
  strings.Contains s sep = false -> strings.Split s sep = [s].
Proof.
  induction s as [|c s IH]; simpl; [reflexivity|].
  intros Hc. apply orb_false_iff in Hc as [Hc Hs].
  rewrite Hc, (IH Hs). reflexivity.
Qed.

Lemma Split_first (a b : string) :
  strings.Contains a sep = false ->
  strings.Split (a +:+ String sep b) sep = a :: strings.Split b sep.
Proof.
  induction a as [|c a IH]; simpl.
  - intros _. rewrite Ascii.eqb_refl. reflexivity.
  - intros Hc. apply orb_false_iff in Hc as [Hc Ha].
    rewrite Hc, (IH Ha). reflexivity.
Qed.

(** Joining the pieces gives the text back: [Split] loses nothing. *)
Lemma Join_Split (s : string) : strings.Join (strings.Split s sep) sep = s.
Proof.
  induction s as [|c s IH]; simpl; [reflexivity|].
  destruct (Ascii.eqb c sep) eqn:Hc.
  - apply Ascii.eqb_eq in Hc as ->.
    destruct (Split_cons s) as (h & t & Hs). rewrite Hs in *.
    change (strings.Join (EmptyString :: h :: t) sep)
      with (EmptyString +:+ String sep (strings.Join (h :: t) sep)).
    rewrite IH. reflexivity.
  - destruct (Split_cons s) as (h & t & Hs). rewrite Hs in *.
    destruct t as [|h' t]; simpl in *; now rewrite <- IH.
Qed.

Lemma Contains_nonempty (s : string) :
  strings.Contains s sep = true -> String.eqb s "" = false.
Proof. destruct s; [discriminate | reflexivity]. Qed.

Lemma Contains_app (a b : string) :
  strings.Contains (a +:+ b) sep
  = strings.Contains a sep || strings.Contains b sep.
Proof.
  induction a as [|c a IH]; simpl; [reflexivity|].
  now rewrite IH, orb_assoc.
Qed.

End StringFacts.

(** ** [translateDest] *)

Lemma translateDest_keyed (key value : string) :
  strings.Contains key "=" = false ->
  translateDest (key +:+ "=" +:+ value)
  = if negb (String.eqb key "host") then Err ErrHostRequired
    else
      let vals := strings.Split value "," in
      if Nat.ltb 1 (length vals)
      then Err (ErrAdditionalOptions (strings.Join (skipn 1 vals) ","))
      else Ok (idx vals 0).
Proof.
  intros Hkey. unfold translateDest.
  rewrite (Contains_nonempty "=").
  2:{ rewrite Contains_app. simpl. apply orb_true_r. }
  change (key +:+ "=" +:+ value) with (key +:+ String "=" value).
  simpl strings.SplitN. rewrite (Cut_first _ _ _ Hkey). reflexivity.
Qed.

Lemma translateDest_host (value : string) :
  translateDest ("host=" +:+ value)
  = let vals := strings.Split value "," in
    if Nat.ltb 1 (length vals)
    then Err (ErrAdditionalOptions (strings.Join (skipn 1 vals) ","))
    else Ok (idx vals 0).
Proof. exact (translateDest_keyed "host" value eq_refl). Qed.

(** C7 -- what [translateDest] rejects.  An input whose text before the
    first [=] is not [host] fails with the error of line 246, of class
    InvalidOption.  An input [host=<value>] whose value has a comma
    fails with the error of line 251, of class UnsupportedOption, and
    the argument of its message is the text after the first comma of
    the value, which is the second and later segments joined by commas
    again. *)
Theorem translateDest_rejects :
  (forall key value,
     strings.Contains key "=" = false -> key <> "host" ->
     translateDest (key +:+ "=" +:+ value) = Err ErrHostRequired
     /\ classify ErrHostRequired = InvalidOption)
  /\ (forall value,
      strings.Contains value "," = true ->
      exists first rest,
        value = first +:+ "," +:+ rest
        /\ strings.Contains first "," = false
        /\ strings.Join (skipn 1 (strings.Split value ",")) "," = rest
        /\ translateDest ("host=" +:+ value) = Err (ErrAdditionalOptions rest)
        /\ error_arg (ErrAdditionalOptions rest) = Some rest
        /\ classify (ErrAdditionalOptions rest) = UnsupportedOption).
Proof.
  split.
  - intros key value Hkey Hne. split; [|reflexivity].
    rewrite (translateDest_keyed _ _ Hkey).
    apply String.eqb_neq in Hne. now rewrite Hne.
  - intros value Hcomma.
    destruct (Cut_present _ _ Hcomma) as (first & rest & -> & Hfirst).
    exists first, rest.
    assert (Hjoin : strings.Join
              (skipn 1 (strings.Split (first +:+ String "," rest) ",")) ","
            = rest).
    { rewrite (Split_first _ _ _ Hfirst). simpl. apply Join_Split. }
    repeat split; try assumption.
    rewrite translateDest_host. cbv zeta. rewrite Hjoin.
    rewrite (Split_first _ _ _ Hfirst).
    destruct (Split_cons "," rest) as (h & t & ->). reflexivity.
Qed.

(** The theorem at [user=foo] and at [host=tcp://h:1,ca=x,cert=y]. *)
Lemma translateDest_rejects_witness :
  translateDest "user=foo" = Err ErrHostRequired
  /\ translateDest "host=tcp://h:1,ca=x,cert=y"
     = Err (ErrAdditionalOptions "ca=x,cert=y").
Proof.
  destruct translateDest_rejects as [Hkey Hmore]. split.
  - apply (Hkey "user" "foo"); [reflexivity | discriminate].
  - destruct (Hmore "tcp://h:1,ca=x,cert=y" eq_refl)
      as (first & rest & _ & _ & Hjoin & Htr & _).
    simpl in Hjoin. rewrite <- Hjoin in Htr. exact Htr.
Defined.

(** C8 -- what [translateDest] accepts.  The empty input gives the empty
    destination; an input without [=] is returned as it is; an input
    [host=<value>] whose value has no comma gives the value.  None of
    them gives an error. *)
Theorem translateDest_accepts :
  translateDest "" = Ok ""
  /\ (forall path, strings.Contains path "=" = false ->
                   translateDest path = Ok path)
  /\ (forall value, strings.Contains value "," = false ->
                    translateDest ("host=" +:+ value) = Ok value).
Proof.
  split; [reflexivity|]. split.
  - intros path Hpath. unfold translateDest.
    destruct (String.eqb path "") eqn:Hempty.
    + apply String.eqb_eq in Hempty as ->. reflexivity.
    + simpl strings.SplitN. rewrite (Cut_absent _ _ Hpath). reflexivity.
  - intros value Hvalue.
    rewrite translateDest_host. cbv zeta.
    rewrite (Split_absent _ _ Hvalue). reflexivity.
Qed.

(** The theorem at [root@server] and at [host=tcp://h:1]. *)
Lemma translateDest_accepts_witness :
  translateDest "root@server" = Ok "root@server"
  /\ translateDest "host=tcp://h:1" = Ok "tcp://h:1".
Proof.
  destruct translateDest_accepts as (_ & Hbare & Hhost).
  split; [apply Hbare | apply (Hhost "tcp://h:1")]; reflexivity.
Defined.

(** ** Scheme defaulting *)

Lemma prefix_split (p s : string) :
  String.prefix p s = true <-> exists rest, s = p +:+ rest.
Proof.
  revert s. induction p as [|c p IH]; intros s; simpl.
  - split; [intros _; now exists s | destruct s; reflexivity].
  - destruct s as [|d s]; simpl.
    + split; [discriminate | intros [r Hr]; discriminate].
    + destruct (ascii_dec c d) as [<- | Hne].
      * rewrite IH. split; intros [r Hr]; exists r.
        -- now rewrite Hr.
        -- now injection Hr.
      * split; [discriminate | intros [r Hr]].
        injection Hr as Hcd _. now destruct Hne.
Qed.

Lemma colon_is_no_scheme_char : is_scheme_char ":" = false.
Proof. reflexivity. Qed.

Lemma match_scheme_rest_spec (s : string) :
  match_scheme_rest s = true <->
  exists scheme rest,
    s = scheme +:+ "://" +:+ rest
    /\ Forall (fun x => is_scheme_char x = true) (list_ascii_of_string scheme).
Proof.
  split.
  - induction s as [|c s IH].
    + simpl. discriminate.
    + intros Hm. cbn [match_scheme_rest] in Hm.
      apply orb_true_iff in Hm as [Hp | Hm].
      * apply prefix_split in Hp as [rest Hrest].
        exists EmptyString, rest. split; [exact Hrest | constructor].
      * apply andb_true_iff in Hm as [Hc Hm].
        destruct (IH Hm) as (scheme & rest & -> & Hall).
        exists (String c scheme), rest. split; [reflexivity|].
        simpl. now constructor.
  - intros (scheme & rest & -> & Hall).
    induction scheme as [|c scheme IH].
    + destruct rest; reflexivity.
    + simpl in Hall. inversion Hall as [|? ? Hc Hall']; subst.
      change (String c scheme +:+ "://" +:+ rest)
        with (String c (scheme +:+ "://" +:+ rest)).
      cbn [match_scheme_rest]. rewrite Hc, (IH Hall'). apply orb_true_r.
Qed.

(** The matcher decides the rule as the design document words it. *)
Lemma MatchString_scheme_spec (dest : string) :
  MatchString_scheme dest = true <-> SchemePrefixed dest.
Proof.
  unfold SchemePrefixed. destruct dest as [|c s]; simpl.
  - split; [discriminate | intros (? & ? & ? & ? & _); discriminate].
  - rewrite andb_true_iff, match_scheme_rest_spec. split.
    + intros (Hc & scheme & rest & -> & Hall). now exists c, scheme, rest.
    + intros (c' & scheme & rest & Heq & Hc & Hall).
      injection Heq as -> ->. eauto.
Qed.

Lemma ssh_prefix_matches (dest : string) :
  MatchString_scheme ("ssh://" +:+ dest) = true.
Proof. destruct dest; reflexivity. Qed.

(** C2 -- scheme defaulting.  A destination that does not begin with a
    letter, then letters, digits, [+], [.] or [-], then [://] is handed
    to [url.Parse] with the literal [ssh://] in front, once: the result
    carries a scheme, so defaulting it again changes nothing.  A
    destination that does begin so, whatever the scheme, is handed to
    [url.Parse] as it is. *)
Theorem scheme_defaulting (dest : string) :
  (MatchString_scheme dest = true <-> SchemePrefixed dest)
  /\ (~ SchemePrefixed dest -> defaultScheme dest = "ssh://" +:+ dest)
  /\ (SchemePrefixed dest -> defaultScheme dest = dest)
  /\ SchemePrefixed (defaultScheme dest)
  /\ defaultScheme (defaultScheme dest) = defaultScheme dest
  /\ (forall (E : Collaborators),
       (~ SchemePrefixed dest ->
        parseDestination dest
        = match url_Parse ("ssh://" +:+ dest) with
          | inl e => Err (ErrURLParse e)
          | inr uri => Ok uri
          end)
       /\ (SchemePrefixed dest ->
           parseDestination dest
           = match url_Parse dest with
             | inl e => Err (ErrURLParse e)
             | inr uri => Ok uri
             end)).
Proof.
  pose proof (MatchString_scheme_spec dest) as Hspec.
  assert (Hno : ~ SchemePrefixed dest -> defaultScheme dest = "ssh://" +:+ dest).
  { intros Hn. unfold defaultScheme.
    destruct (MatchString_scheme dest); [|reflexivity].
    exfalso. apply Hn, Hspec. reflexivity. }
  assert (Hyes : SchemePrefixed dest -> defaultScheme dest = dest).
  { intros Hp. unfold defaultScheme. apply Hspec in Hp. now rewrite Hp. }
  assert (Hmatch : MatchString_scheme (defaultScheme dest) = true).
  { unfold defaultScheme. destruct (MatchString_scheme dest) eqn:Hm;
      [exact Hm | apply ssh_prefix_matches]. }
  repeat split.
  - apply Hspec.
  - apply Hspec.
  - exact Hno.
  - exact Hyes.
  - apply MatchString_scheme_spec, Hmatch.
  - unfold defaultScheme at 1. now rewrite Hmatch.
  - intros Hn. unfold parseDestination. now rewrite (Hno Hn).
  - intros Hp. unfold parseDestination. now rewrite (Hyes Hp).
Qed.

(** The theorem at [root@server], which gets the prefix, and at
    [foo+bar://x], whose unknown scheme is left alone. *)
Lemma scheme_defaulting_witness :
  defaultScheme "root@server" = "ssh://root@server"
  /\ defaultScheme "foo+bar://x" = "foo+bar://x".
Proof.
  split.
  - destruct (scheme_defaulting "root@server") as (Hspec & Hno & _).
    apply Hno. intros Hp. apply Hspec in Hp. discriminate Hp.
  - destruct (scheme_defaulting "foo+bar://x") as (Hspec & _ & Hyes & _).
    apply Hyes, Hspec. reflexivity.
Defined.

(** ** Runs of [add] and [create] *)

Section RunFacts.
Context `{E : Collaborators}.

Lemma lift_Ok_bind {A B} (a : A) (f : A -> Run B) : lift (Ok a) ≫= f = f a.
Proof. unfold lift, mbind, Run_bind. now destruct (f a). Qed.

Lemma lift_Err_bind {A B} (e : error) (f : A -> Run B) :
  lift (Err e) ≫= f = ([], Err e).
Proof. reflexivity. Qed.

Lemma bind_run {A B} (m : Run A) (f : A -> Run B) :
  m ≫= f
  = match returned m with
    | Ok a => (trace m ++ trace (f a), returned (f a))
    | Err e => (trace m, Err e)
    end.
Proof.
  destruct m as [t [a|e]]; simpl; [|reflexivity].
  unfold mbind, Run_bind. now destruct (f a).
Qed.

Lemma applySocketPath_Scheme (cmd : Cmd) (uri : url.URL) :
  url.Scheme (applySocketPath cmd uri) = url.Scheme uri.
Proof. unfold applySocketPath. now destruct (Changed cmd "socket-path"). Qed.

(** Line 143 repeats line 120 and changes nothing. *)
Lemma applySocketPath_twice (cmd : Cmd) (uri : url.URL) :
  applySocketPath cmd (applySocketPath cmd uri) = applySocketPath cmd uri.
Proof. unfold applySocketPath. now destruct (Changed cmd "socket-path"). Qed.

Lemma applySocketPath_unchanged (cmd : Cmd) (uri : url.URL) :
  Changed cmd "socket-path" = false -> applySocketPath cmd uri = uri.
Proof. unfold applySocketPath. now intros ->. Qed.

(** [checkSocket] makes the one call to [os.Stat], warns at most once,
    and fails only with the error of line 153 or of line 155. *)
Lemma checkSocket_outcome (path : string) :
  forallb quiet (trace (checkSocket path)) = true
  /\ match returned (checkSocket path) with
     | Ok _ => True
     | Err e => validation_error e = true
     end.
Proof.
  unfold checkSocket. rewrite bind_run. simpl.
  destruct (os_Stat path) as [err|info].
  - destruct (is_ErrNotExist err); [now split|].
    destruct (is_ErrPermission err); now split.
  - destruct (Z.eqb _ 0); now split.
Qed.

(** The validation of a scheme calls nothing but [os.Stat] and the
    logger, fails only with a validation error, and leaves the URI as
    line 120 made it. *)
Lemma validateScheme_outcome (cmd : Cmd) (uri : url.URL) :
  forallb quiet (trace (validateScheme cmd (applySocketPath cmd uri))) = true
  /\ match returned (validateScheme cmd (applySocketPath cmd uri)) with
     | Ok uri' => uri' = applySocketPath cmd uri
     | Err e => validation_error e = true
     end.
Proof.
  unfold validateScheme. rewrite applySocketPath_twice.
  destruct (String.eqb _ "unix").
  - destruct (Changed cmd "identity"); [now split|].
    rewrite bind_run.
    destruct (checkSocket_outcome (url.Path (applySocketPath cmd uri)))
      as [Hq He].
    destruct (returned (checkSocket _)); simpl; [|now split].
    rewrite app_nil_r. now split.
  - destruct (String.eqb _ "tcp").
    + destruct (Changed cmd "socket-path"); [now split|].
      destruct (Changed cmd "identity"); [now split|].
      destruct (String.eqb (URL_Port _) ""); now split.
    + now split.
Qed.

(** Every run of [add] takes one of the five ways. *)
Lemma add_path_total (cmd : Cmd) (args0 args1 : string) :
  add_path cmd args0 args1 (add cmd args0 args1).
Proof.
  unfold add. destruct (parseDestination args1) as [uri|e] eqn:Hparse.
  - rewrite lift_Ok_bind. cbv zeta.
    destruct (ssh_DefineMode PodmanConfig_SSHMode) eqn:Hmode.
    1,2: rewrite applySocketPath_Scheme;
         destruct (String.eqb (url.Scheme uri) "ssh") eqn:Hssh;
         [ apply String.eqb_eq in Hssh; rewrite <- Hmode;
           apply (path_ssh _ _ _ uri); congruence
         | apply String.eqb_neq in Hssh; rewrite bind_run;
           destruct (validateScheme_outcome cmd uri) as [_ Hret];
           destruct (validateScheme cmd (applySocketPath cmd uri))
             as [calls [uri'|e]] eqn:Hv; simpl in Hret |- *;
           [ subst uri'; apply (path_stored _ _ _ uri); congruence
           | apply (path_rejected _ _ _ uri); congruence ] ].
    apply (path_invalid_mode _ _ _ uri); assumption.
  - rewrite lift_Err_bind. now apply path_unparsed.
Qed.

Lemma store_run (cmd : Cmd) (name : string) (uri : url.URL) :
  store cmd name uri
  = match config_ReadCustomConfig with
    | inl e => ([EvReadCustomConfig], Err (ErrReadCustomConfig e))
    | inr cfg =>
        let cfg' := add_upsert cmd name (URL_String uri) cfg in
        ([EvReadCustomConfig; EvWrite cfg'],
         match Config_Write cfg' with
         | Some e => Err (ErrWrite e)
         | None => Ok tt
         end)
    end.
Proof.
  unfold store. rewrite bind_run. unfold readCustomConfig. simpl.
  now destruct config_ReadCustomConfig.
Qed.

(** Past the parser and the mode check, [add] is the [switch]. *)
Lemma add_resolved (cmd : Cmd) (args0 args1 : string) (uri : url.URL) :
  parseDestination args1 = Ok uri ->
  ssh_DefineMode PodmanConfig_SSHMode <> ssh.InvalidMode ->
  add cmd args0 args1
  = if String.eqb (url.Scheme uri) "ssh"
    then sshCreate (entitiesOf cmd args0 args1)
                   (ssh_DefineMode PodmanConfig_SSHMode)
    else
      uri' ← validateScheme cmd (applySocketPath cmd uri);
      store cmd args0 uri'.
Proof.
  intros Hparse Hmode. unfold add. rewrite Hparse, lift_Ok_bind. cbv zeta.
  rewrite applySocketPath_Scheme.
  now destruct (ssh_DefineMode PodmanConfig_SSHMode).
Qed.

Lemma validateScheme_unix (cmd : Cmd) (uri : url.URL) :
  url.Scheme uri = "unix" ->
  validateScheme cmd (applySocketPath cmd uri)
  = if Changed cmd "identity" then fail ErrIdentityUnix
    else checkSocket (url.Path (applySocketPath cmd uri));;
         mret (applySocketPath cmd uri).
Proof.
  intros Hs. unfold validateScheme.
  now rewrite applySocketPath_twice, applySocketPath_Scheme, Hs.
Qed.

Lemma validateScheme_tcp (cmd : Cmd) (uri : url.URL) :
  url.Scheme uri = "tcp" ->
  validateScheme cmd (applySocketPath cmd uri)
  = if Changed cmd "socket-path" then fail ErrSocketPathTcp
    else if Changed cmd "identity" then fail ErrIdentityTcp
    else if String.eqb (URL_Port (applySocketPath cmd uri)) ""
         then fail ErrTcpPort
         else mret (applySocketPath cmd uri).
Proof.
  intros Hs. unfold validateScheme.
  now rewrite applySocketPath_Scheme, Hs.
Qed.

(** C10 -- no registry access before validation has passed.  When
    [add] returns an error of destination parsing or of scheme
    validation, the calls it has made are calls to [os.Stat] and to the
    logger only: [config.ReadCustomConfig], [cfg.Write] and
    [ssh.Create] have not been called.  And when the registry has been
    read, the destination had been parsed and validated. *)
Theorem add_validates_before_registry (cmd : Cmd) (args0 args1 : string) :
  (forall calls e,
     add cmd args0 args1 = (calls, Err e) ->
     validation_error e = true ->
     forallb quiet calls = true)
  /\ (In EvReadCustomConfig (trace (add cmd args0 args1)) ->
      exists uri calls,
        parseDestination args1 = Ok uri
        /\ validateScheme cmd (applySocketPath cmd uri)
           = (calls, Ok (applySocketPath cmd uri))).
Proof.
  pose proof (add_path_total cmd args0 args1) as Hpath. split.
  - intros calls e Hadd Hval. rewrite Hadd in Hpath.
    remember (calls, Err e) as r eqn:Hr.
    destruct Hpath as
      [ e0 Hp | uri Hp Hm | uri Hp Hm Hs
      | uri calls0 e0 Hp Hm Hs Hv | uri calls0 Hp Hm Hs Hv ].
    + now inversion Hr.
    + inversion Hr; subst. discriminate Hval.
    + unfold sshCreate in Hr. destruct ssh_Create; inversion Hr; subst.
      discriminate Hval.
    + inversion Hr; subst.
      pose proof (validateScheme_outcome cmd uri) as [Hq _].
      now rewrite Hv in Hq.
    + rewrite store_run in Hr.
      destruct config_ReadCustomConfig; simpl in Hr.
      * inversion Hr; subst. discriminate Hval.
      * destruct Config_Write; inversion Hr; subst. discriminate Hval.
  - intros Hin.
    destruct Hpath as
      [ e0 Hp | uri Hp Hm | uri Hp Hm Hs
      | uri calls0 e0 Hp Hm Hs Hv | uri calls0 Hp Hm Hs Hv ];
      simpl in Hin.
    + destruct Hin.
    + destruct Hin.
    + destruct Hin as [Hin | []]. discriminate Hin.
    + pose proof (validateScheme_outcome cmd uri) as [Hq _].
      rewrite Hv in Hq. simpl in Hq.
      rewrite forallb_forall in Hq. apply Hq in Hin. discriminate Hin.
    + eauto.
Qed.

(** The mode check of line 130 comes before the [switch]. *)
Lemma add_invalid_mode (cmd : Cmd) (args0 args1 : string) (uri : url.URL) :
  parseDestination args1 = Ok uri ->
  ssh_DefineMode PodmanConfig_SSHMode = ssh.InvalidMode ->
  add cmd args0 args1 = ([], Err ErrInvalidSSHMode).
Proof.
  intros Hparse Hmode. unfold add.
  rewrite Hparse, lift_Ok_bind. cbv zeta. now rewrite Hmode.
Qed.

(** C5 (as amended) -- overrides a scheme does not support.  For a
    destination that parses, when the [--ssh] mode is valid: scheme
    [unix] with [--identity] given fails with the error of line 139;
    scheme [tcp] with [--socket-path] or [--identity] given fails with
    the error of line 159 or 162; all three are of class
    UnsupportedOption and are returned before any collaborator is
    called.  Scheme [ssh] raises no such error: whatever flags were
    given, [add] hands the options, identity and socket path included,
    to [ssh.Create] and returns what it returns.  When the [--ssh] mode
    is invalid, [add] fails with the error of line 131, which is not of
    that class, whatever the scheme and the flags. *)
Theorem override_compatibility (cmd : Cmd) (args0 args1 : string)
    (uri : url.URL) :
  parseDestination args1 = Ok uri ->
  (ssh_DefineMode PodmanConfig_SSHMode = ssh.InvalidMode ->
     add cmd args0 args1 = ([], Err ErrInvalidSSHMode)
     /\ classify ErrInvalidSSHMode <> UnsupportedOption)
  /\ (ssh_DefineMode PodmanConfig_SSHMode <> ssh.InvalidMode ->
      (url.Scheme uri = "unix" -> Changed cmd "identity" = true ->
         add cmd args0 args1 = ([], Err ErrIdentityUnix)
         /\ classify ErrIdentityUnix = UnsupportedOption)
      /\ (url.Scheme uri = "tcp" ->
          Changed cmd "identity" = true \/ Changed cmd "socket-path" = true ->
          exists e,
            add cmd args0 args1 = ([], Err e)
            /\ (e = ErrSocketPathTcp \/ e = ErrIdentityTcp)
            /\ classify e = UnsupportedOption)
      /\ (url.Scheme uri = "ssh" ->
          let entities := entitiesOf cmd args0 args1 in
          let mode := ssh_DefineMode PodmanConfig_SSHMode in
          ssh.Identity entities = Identity (cOpts cmd)
          /\ ssh.Socket entities = UDSPath (cOpts cmd)
          /\ add cmd args0 args1
             = ([EvSSHCreate entities mode],
                match ssh_Create entities mode with
                | Some e => Err (ErrSSHCreate e)
                | None => Ok tt
                end))).
Proof.
  intros Hparse. split.
  { intros Hmode. split; [now apply (add_invalid_mode _ _ _ uri)|].
    discriminate. }
  intros Hmode.
  rewrite (add_resolved _ _ _ _ Hparse Hmode). split; [|split].
  - intros Hs Hid. split; [|reflexivity].
    rewrite Hs. simpl String.eqb. cbv iota.
    rewrite (validateScheme_unix _ _ Hs), Hid. reflexivity.
  - intros Hs Hflag. rewrite Hs. simpl String.eqb. cbv iota.
    rewrite (validateScheme_tcp _ _ Hs).
    destruct (Changed cmd "socket-path").
    + exists ErrSocketPathTcp. repeat split. now left.
    + destruct Hflag as [Hid | Hsock]; [|discriminate Hsock].
      rewrite Hid. exists ErrIdentityTcp. repeat split. now right.
  - intros Hs. rewrite Hs. repeat split.
Qed.

Lemma checkSocket_run (path : string) :
  checkSocket path
  = match os_Stat path with
    | inl err =>
        if is_ErrNotExist err
        then ([EvStat path; EvWarn (WarnNotExist path)], Ok tt)
        else if is_ErrPermission err
        then ([EvStat path; EvWarn (WarnPermission path)], Ok tt)
        else ([EvStat path], Err (ErrStat err))
    | inr info =>
        if Z.eqb (Z.land (os.Mode info) os.ModeSocket) 0
        then ([EvStat path], Err (ErrNotSocket path))
        else ([EvStat path], Ok tt)
    end.
Proof.
  unfold checkSocket. rewrite bind_run. simpl.
  destruct (os_Stat path) as [err|info].
  - destruct (is_ErrNotExist err); [reflexivity|].
    now destruct (is_ErrPermission err).
  - now destruct (Z.eqb _ 0).
Qed.

(** For a unix destination without [--identity], [add] is the socket
    check followed, when it passes, by [store]. *)
Lemma add_unix (cmd : Cmd) (args0 args1 : string) (uri0 : url.URL) :
  parseDestination args1 = Ok uri0 ->
  ssh_DefineMode PodmanConfig_SSHMode <> ssh.InvalidMode ->
  url.Scheme uri0 = "unix" ->
  Changed cmd "identity" = false ->
  let uri := applySocketPath cmd uri0 in
  add cmd args0 args1
  = match returned (checkSocket (url.Path uri)) with
    | Ok _ =>
        continues_with (trace (checkSocket (url.Path uri)))
                       (store cmd args0 uri)
    | Err e => (trace (checkSocket (url.Path uri)), Err e)
    end.
Proof.
  intros Hparse Hmode Hs Hid uri.
  rewrite (add_resolved _ _ _ _ Hparse Hmode), Hs. simpl String.eqb.
  cbv iota. rewrite (validateScheme_unix _ _ Hs), Hid. fold uri.
  rewrite !bind_run.
  destruct (checkSocket (url.Path uri)) as [calls [[]|e]]; simpl;
    [|reflexivity].
  unfold continues_with. simpl. now rewrite app_nil_r.
Qed.

Lemma store_succeeds (cmd : Cmd) (name : string) (uri : url.URL)
    (calls : list Event) (cfg : config.Config) :
  config_ReadCustomConfig = inr cfg ->
  Config_Write (add_upsert cmd name (URL_String uri) cfg) = None ->
  continues_with calls (store cmd name uri)
  = (calls ++ [EvReadCustomConfig;
               EvWrite (add_upsert cmd name (URL_String uri) cfg)],
     Ok tt).
Proof.
  intros Hread Hwrite. unfold continues_with.
  rewrite store_run, Hread. cbv zeta. now rewrite Hwrite.
Qed.

(** The four answers of [os.Stat], for a unix destination that gets as
    far as the call. *)
Lemma unix_stat_cases (cmd : Cmd) (args0 args1 : string)
    (uri0 : url.URL) :
  parseDestination args1 = Ok uri0 ->
  ssh_DefineMode PodmanConfig_SSHMode <> ssh.InvalidMode ->
  url.Scheme uri0 = "unix" ->
  Changed cmd "identity" = false ->
  let uri := applySocketPath cmd uri0 in
  let path := url.Path uri in
  let stored cfg := add_upsert cmd args0 (URL_String uri) cfg in
  (forall err,
     os_Stat path = inl err ->
     is_ErrNotExist err || is_ErrPermission err = true ->
     let warning :=
       if is_ErrNotExist err then WarnNotExist path
       else WarnPermission path in
     add cmd args0 args1
     = continues_with [EvStat path; EvWarn warning] (store cmd args0 uri)
     /\ forall cfg,
          config_ReadCustomConfig = inr cfg ->
          Config_Write (stored cfg) = None ->
          add cmd args0 args1
          = ([EvStat path; EvWarn warning;
              EvReadCustomConfig; EvWrite (stored cfg)], Ok tt))
  /\ (forall err,
       os_Stat path = inl err ->
       is_ErrNotExist err = false -> is_ErrPermission err = false ->
       add cmd args0 args1 = ([EvStat path], Err (ErrStat err))
       /\ classify (ErrStat err) = FilesystemError)
  /\ (forall info,
       os_Stat path = inr info ->
       Z.land (os.Mode info) os.ModeSocket = 0%Z ->
       add cmd args0 args1 = ([EvStat path], Err (ErrNotSocket path))
       /\ classify (ErrNotSocket path) = InvalidDestination)
  /\ (forall info,
       os_Stat path = inr info ->
       Z.land (os.Mode info) os.ModeSocket <> 0%Z ->
       add cmd args0 args1
       = continues_with [EvStat path] (store cmd args0 uri)
       /\ forall cfg,
            config_ReadCustomConfig = inr cfg ->
            Config_Write (stored cfg) = None ->
            add cmd args0 args1
            = ([EvStat path; EvReadCustomConfig; EvWrite (stored cfg)],
               Ok tt)).
Proof.
  intros Hparse Hmode Hs Hid uri path stored.
  pose proof (add_unix cmd args0 args1 uri0 Hparse Hmode Hs Hid) as Hadd.
  cbv zeta in Hadd. fold uri path in Hadd.
  rewrite checkSocket_run in Hadd. rewrite Hadd. clear Hadd.
  split; [|split; [|split]].
  - intros err Hstat Hwarn warning. rewrite Hstat. subst warning.
    destruct (is_ErrNotExist err); [|simpl in Hwarn; rewrite Hwarn];
      cbn [returned trace fst snd];
      (split; [reflexivity|]); intros cfg Hread Hwrite;
      now rewrite (store_succeeds _ _ _ _ _ Hread Hwrite).
  - intros err Hstat Hne Hperm. rewrite Hstat, Hne, Hperm. now split.
  - intros info Hstat Hbit. rewrite Hstat, Hbit. now split.
  - intros info Hstat Hbit. rewrite Hstat.
    apply Z.eqb_neq in Hbit. rewrite Hbit. cbn [returned trace fst snd].
    split; [reflexivity|]. intros cfg Hread Hwrite.
    now rewrite (store_succeeds _ _ _ _ _ Hread Hwrite).
Qed.

(** [os.Stat] is called for a unix destination exactly when the mode
    check has passed and [--identity] was not given. *)
Lemma stat_reached (cmd : Cmd) (args0 args1 : string) (uri0 : url.URL) :
  parseDestination args1 = Ok uri0 ->
  url.Scheme uri0 = "unix" ->
  In (EvStat (url.Path (applySocketPath cmd uri0)))
     (trace (add cmd args0 args1))
  <-> ssh_DefineMode PodmanConfig_SSHMode <> ssh.InvalidMode
      /\ Changed cmd "identity" = false.
Proof.
  intros Hparse Hs. split.
  - intros Hin.
    destruct (ssh_DefineMode PodmanConfig_SSHMode) eqn:Hmode.
    3:{ rewrite (add_invalid_mode _ _ _ _ Hparse Hmode) in Hin.
        destruct Hin. }
    all: split; [discriminate|].
    all: assert (Hvalid : ssh_DefineMode PodmanConfig_SSHMode
                          <> ssh.InvalidMode) by (rewrite Hmode; discriminate).
    all: rewrite (add_resolved _ _ _ _ Hparse Hvalid), Hs in Hin.
    all: simpl String.eqb in Hin; cbv iota in Hin.
    all: rewrite (validateScheme_unix _ _ Hs) in Hin.
    all: destruct (Changed cmd "identity"); [destruct Hin | reflexivity].
  - intros [Hmode Hid].
    rewrite (add_unix _ _ _ _ Hparse Hmode Hs Hid), checkSocket_run.
    destruct (os_Stat _) as [err|info].
    + destruct (is_ErrNotExist err); [now left|].
      destruct (is_ErrPermission err); now left.
    + destruct (Z.eqb _ 0); now left.
Qed.

(** C6 -- what [add] makes of the answer of [os.Stat].  For a unix
    destination that parses, in a run that calls [os.Stat] on the
    resolved path (the socket-path override if given, else the path of
    the URI): the path is not found, or may not be read -- a warning, and
    [add] goes on to store the connection, which succeeds when reading
    and writing the configuration do; another error of [os.Stat] --
    [add] returns that error; the path exists and its mode has no socket
    bit -- [add] fails with the error of line 155, of class
    InvalidDestination; the path exists and is a socket -- [add] goes on
    to store the connection. *)
Theorem unix_stat_policy (cmd : Cmd) (args0 args1 : string)
    (uri0 : url.URL) :
  parseDestination args1 = Ok uri0 ->
  url.Scheme uri0 = "unix" ->
  let uri := applySocketPath cmd uri0 in
  let path := url.Path uri in
  let stored cfg := add_upsert cmd args0 (URL_String uri) cfg in
  In (EvStat path) (trace (add cmd args0 args1)) ->
  (forall err,
     os_Stat path = inl err ->
     is_ErrNotExist err || is_ErrPermission err = true ->
     let warning :=
       if is_ErrNotExist err then WarnNotExist path
       else WarnPermission path in
     add cmd args0 args1
     = continues_with [EvStat path; EvWarn warning] (store cmd args0 uri)
     /\ forall cfg,
          config_ReadCustomConfig = inr cfg ->
          Config_Write (stored cfg) = None ->
          add cmd args0 args1
          = ([EvStat path; EvWarn warning;
              EvReadCustomConfig; EvWrite (stored cfg)], Ok tt))
  /\ (forall err,
       os_Stat path = inl err ->
       is_ErrNotExist err = false -> is_ErrPermission err = false ->
       add cmd args0 args1 = ([EvStat path], Err (ErrStat err))
       /\ classify (ErrStat err) = FilesystemError)
  /\ (forall info,
       os_Stat path = inr info ->
       Z.land (os.Mode info) os.ModeSocket = 0%Z ->
       add cmd args0 args1 = ([EvStat path], Err (ErrNotSocket path))
       /\ classify (ErrNotSocket path) = InvalidDestination)
  /\ (forall info,
       os_Stat path = inr info ->
       Z.land (os.Mode info) os.ModeSocket <> 0%Z ->
       add cmd args0 args1
       = continues_with [EvStat path] (store cmd args0 uri)
       /\ forall cfg,
            config_ReadCustomConfig = inr cfg ->
            Config_Write (stored cfg) = None ->
            add cmd args0 args1
            = ([EvStat path; EvReadCustomConfig; EvWrite (stored cfg)],
               Ok tt)).
Proof.
  intros Hparse Hs uri path stored Hcalled.
  apply (stat_reached _ _ _ _ Hparse Hs) in Hcalled as [Hmode Hid].
  exact (unix_stat_cases cmd args0 args1 uri0 Hparse Hmode Hs Hid).
Qed.

Lemma add_upsert_active (cmd : Cmd) (name uri : string)
    (cfg : config.Config) :
  config.ActiveService (add_upsert cmd name uri cfg)
  = active_after name (Changed cmd "default" && Default (cOpts cmd)) cfg.
Proof.
  unfold add_upsert, active_after.
  destruct (Changed cmd "default"), (Default (cOpts cmd));
    simpl; now destruct (config.ServiceDestinations cfg).
Qed.

Lemma create_upsert_active (name uri : string) (cfg : config.Config) :
  config.ActiveService (create_upsert name uri cfg)
  = active_after name false cfg.
Proof.
  unfold create_upsert, active_after.
  now destruct (config.ServiceDestinations cfg).
Qed.

(** What [create] does once the translator and the parser have
    accepted the destination. *)
Lemma create_run (dockerPath args0 dest : string) (uri : url.URL) :
  translateDest dockerPath = Ok dest ->
  parseDestination dest = Ok uri ->
  create dockerPath args0
  = match config_ReadCustomConfig with
    | inl e => ([EvReadCustomConfig], Err (ErrReadCustomConfig e))
    | inr cfg =>
        let cfg' := create_upsert args0 (URL_String uri) cfg in
        ([EvReadCustomConfig; EvWrite cfg'],
         match Config_Write cfg' with
         | Some e => Err (ErrWrite e)
         | None => Ok tt
         end)
    end.
Proof.
  intros Htr Hparse. unfold create.
  rewrite Htr, lift_Ok_bind, Hparse, lift_Ok_bind, bind_run.
  unfold readCustomConfig. simpl.
  now destruct config_ReadCustomConfig.
Qed.

(** C1 -- the active-service pointer.  Whatever configuration [add] or
    [create] hands to [Write] is the one read from the registry with
    the record put under the name, and its active-service pointer is:
    the name, when the map read was nil, whatever the default flag;
    otherwise the name when [--default] was given with a true value,
    and the pointer that was read when it was not ([create] has no
    such flag and never asks). *)
Theorem active_pointer_rule (cmd : Cmd) (name args1 dockerPath : string) :
  (forall uri cfg,
     config.ActiveService (add_upsert cmd name uri cfg)
     = active_after name (Changed cmd "default" && Default (cOpts cmd)) cfg
     /\ config.ActiveService (create_upsert name uri cfg)
        = active_after name false cfg)
  /\ (forall cfg',
       In (EvWrite cfg') (trace (add cmd name args1)) ->
       exists uri cfg,
         config_ReadCustomConfig = inr cfg
         /\ cfg' = add_upsert cmd name uri cfg
         /\ config.ActiveService cfg'
            = active_after name
                (Changed cmd "default" && Default (cOpts cmd)) cfg)
  /\ (forall cfg',
       In (EvWrite cfg') (trace (create dockerPath name)) ->
       exists uri cfg,
         config_ReadCustomConfig = inr cfg
         /\ cfg' = create_upsert name uri cfg
         /\ config.ActiveService cfg' = active_after name false cfg).
Proof.
  split; [|split].
  - intros uri cfg. split;
      [apply add_upsert_active | apply create_upsert_active].
  - intros cfg' Hin.
    destruct (add_path_total cmd name args1) as
      [ e0 Hp | uri1 Hp Hm | uri1 Hp Hm Hs1
      | uri1 calls0 e0 Hp Hm Hs1 Hv | uri1 calls0 Hp Hm Hs1 Hv ];
      simpl in Hin.
    + destruct Hin.
    + destruct Hin.
    + destruct Hin as [Hin | []]. discriminate Hin.
    + pose proof (validateScheme_outcome cmd uri1) as [Hq _].
      rewrite Hv in Hq. simpl in Hq.
      rewrite forallb_forall in Hq. apply Hq in Hin. discriminate Hin.
    + apply in_app_or in Hin as [Hin | Hin].
      * pose proof (validateScheme_outcome cmd uri1) as [Hq _].
        rewrite Hv in Hq. simpl in Hq.
        rewrite forallb_forall in Hq. apply Hq in Hin. discriminate Hin.
      * rewrite store_run in Hin.
        destruct config_ReadCustomConfig as [e|cfg]; simpl in Hin.
        -- destruct Hin as [Hin | []]. discriminate Hin.
        -- destruct Hin as [Hin | [Hin | []]]; [discriminate Hin|].
           injection Hin as <-.
           exists (URL_String (applySocketPath cmd uri1)), cfg.
           repeat split. apply add_upsert_active.
  - intros cfg' Hin.
    destruct (translateDest dockerPath) as [dest|e] eqn:Htr.
    2:{ unfold create in Hin. rewrite Htr in Hin. destruct Hin. }
    destruct (parseDestination dest) as [uri|e] eqn:Hparse.
    2:{ unfold create in Hin.
        rewrite Htr, lift_Ok_bind, Hparse in Hin. destruct Hin. }
    rewrite (create_run _ _ _ _ Htr Hparse) in Hin.
    destruct config_ReadCustomConfig as [e|cfg]; simpl in Hin.
    + destruct Hin as [Hin | []]. discriminate Hin.
    + destruct Hin as [Hin | [Hin | []]]; [discriminate Hin|].
      injection Hin as <-. exists (URL_String uri), cfg.
      repeat split. apply create_upsert_active.
Qed.

(** C9 -- [create] validates nothing.  Once the translator and the
    parser have accepted the destination, whatever its scheme, port or
    path, [create] reads the registry, puts the record under the name
    and writes the registry: it returns an error only if reading or
    writing does, and never calls [os.Stat].  The record holds the URI
    and an empty identity, and the active-service pointer is left as
    it was unless the map read was nil. *)
Theorem create_skips_validation (dockerPath args0 dest : string)
    (uri : url.URL) :
  translateDest dockerPath = Ok dest ->
  parseDestination dest = Ok uri ->
  let stored cfg := create_upsert args0 (URL_String uri) cfg in
  create dockerPath args0 = (cfg ← readCustomConfig; write (stored cfg))
  /\ (forall path, ~ In (EvStat path) (trace (create dockerPath args0)))
  /\ (forall e, returned (create dockerPath args0) = Err e ->
                classify e = PersistenceError)
  /\ (forall cfg,
       config_ReadCustomConfig = inr cfg ->
       trace (create dockerPath args0)
       = [EvReadCustomConfig; EvWrite (stored cfg)]
       /\ (Config_Write (stored cfg) = None ->
           returned (create dockerPath args0) = Ok tt)
       /\ connection (stored cfg) args0
          = Some {| config.URI := URL_String uri; config.Identity := "" |}
       /\ (config.ServiceDestinations cfg <> None ->
           config.ActiveService (stored cfg) = config.ActiveService cfg)).
Proof.
  intros Htr Hparse stored.
  pose proof (create_run _ args0 _ _ Htr Hparse) as Hrun.
  split; [|split; [|split]].
  - unfold create. now rewrite Htr, lift_Ok_bind, Hparse, lift_Ok_bind.
  - intros path Hin. rewrite Hrun in Hin.
    destruct config_ReadCustomConfig; simpl in Hin;
      intuition discriminate.
  - intros e He. rewrite Hrun in He.
    destruct config_ReadCustomConfig; simpl in He.
    + now inversion He.
    + destruct Config_Write; now inversion He.
  - intros cfg Hread. rewrite Hrun, Hread. cbv zeta. fold (stored cfg).
    split; [reflexivity|]. split; [now intros ->|]. split.
    + unfold stored, create_upsert, connection.
      destruct (config.ServiceDestinations cfg); simpl.
      * apply lookup_insert_eq.
      * apply lookup_singleton_eq.
    + intros Hsome. unfold stored. rewrite create_upsert_active.
      unfold active_after.
      now destruct (config.ServiceDestinations cfg).
Qed.

(** The port check of a tcp destination looks at the port of the URI
    and at nothing else: [cOpts.Port] and [Changed "port"] do not occur
    in it. *)
Lemma tcp_port_check (cmd : Cmd) (args0 args1 : string) (uri0 : url.URL) :
  parseDestination args1 = Ok uri0 ->
  ssh_DefineMode PodmanConfig_SSHMode <> ssh.InvalidMode ->
  url.Scheme uri0 = "tcp" ->
  Changed cmd "socket-path" = false ->
  Changed cmd "identity" = false ->
  add cmd args0 args1
  = if String.eqb (URL_Port uri0) "" then ([], Err ErrTcpPort)
    else store cmd args0 uri0.
Proof.
  intros Hparse Hmode Hs Hsock Hid.
  rewrite (add_resolved _ _ _ _ Hparse Hmode), Hs. simpl String.eqb.
  cbv iota. rewrite (validateScheme_tcp _ _ Hs), Hsock, Hid.
  rewrite (applySocketPath_unchanged _ _ Hsock).
  destruct (String.eqb (URL_Port uri0) ""); [reflexivity|].
  apply lift_Ok_bind.
Qed.

End RunFacts.

(** C5 as it is stated fails: under [--ssh=bogus], [podman system
    connection add --identity ~/.ssh/dev_rsa dbg
    unix:///run/podman/podman.sock] fails with the error of line 131
    before the scheme is looked at, and that error is not of class
    UnsupportedOption. *)
Lemma invalid_mode_hides_unsupported_override :
  ~ unsupported_override_always_reported.
Proof.
  intros Hclaim.
  edestruct (Hclaim (sample "bogus" one_connection)
               (cmdline with_identity ["identity"]) "dbg"
               "unix:///run/podman/podman.sock")
    as (calls & e & Hadd & Hclass).
  - vm_compute. reflexivity.
  - left. split; reflexivity.
  - vm_compute in Hadd. injection Hadd as _ <-. discriminate Hclass.
Qed.

(** The theorem on four command lines: [--identity] with a unix
    destination, [--socket-path] with a tcp destination, both with an
    ssh destination, and the first again under [--ssh=bogus]. *)
Lemma override_compatibility_witness :
  add (E := golang) (cmdline with_identity ["identity"]) "dbg"
      "unix:///run/podman/podman.sock"
  = ([], Err ErrIdentityUnix)
  /\ (exists e,
        add (E := golang) (cmdline with_identity ["socket-path"]) "dbg"
            "tcp://localhost:8080"
        = ([], Err e) /\ classify e = UnsupportedOption)
  /\ add (E := golang) (cmdline with_identity ["identity"; "socket-path"])
         "dbg" "ssh://h"
     = ([EvSSHCreate
           {| ssh.Name := "dbg"; ssh.Path := "ssh://h";
              ssh.Identity := "~/.ssh/dev_rsa"; ssh.Port := 22;
              ssh.Socket := "/x"; ssh.Default := false |} ssh.GolangMode],
        Ok tt)
  /\ add (E := sample "bogus" one_connection)
         (cmdline with_identity ["identity"]) "dbg"
         "unix:///run/podman/podman.sock"
     = ([], Err ErrInvalidSSHMode).
Proof.
  repeat apply conj.
  - edestruct (override_compatibility (E := golang)
                 (cmdline with_identity ["identity"])
                 "dbg" "unix:///run/podman/podman.sock") as (_ & Hvalid);
      [vm_compute; reflexivity |].
    destruct Hvalid as (Hunix & _); [discriminate|].
    apply Hunix; reflexivity.
  - edestruct (override_compatibility (E := golang)
                 (cmdline with_identity ["socket-path"])
                 "dbg" "tcp://localhost:8080") as (_ & Hvalid);
      [vm_compute; reflexivity |].
    destruct Hvalid as (_ & Htcp & _); [discriminate|].
    destruct (Htcp eq_refl (or_intror eq_refl)) as (e & Hadd & _ & Hclass).
    now exists e.
  - edestruct (override_compatibility (E := golang)
                 (cmdline with_identity ["identity"; "socket-path"])
                 "dbg" "ssh://h") as (_ & Hvalid);
      [vm_compute; reflexivity |].
    destruct Hvalid as (_ & _ & Hssh); [discriminate|].
    apply Hssh. reflexivity.
  - edestruct (override_compatibility (E := sample "bogus" one_connection)
                 (cmdline with_identity ["identity"])
                 "dbg" "unix:///run/podman/podman.sock") as (Hinvalid & _);
      [vm_compute; reflexivity |].
    apply Hinvalid. reflexivity.
Defined.

(** C3 -- [--port] does not supply the port of a tcp destination.
    [podman system connection add --port 8080 debug tcp://localhost]
    fails with the error of line 165, of class InvalidDestination, whose
    own text says that the port may come from [--port]: the check of
    line 164 reads the port of the URI only. *)
Theorem tcp_port_flag_not_consulted :
  add (E := golang) with_port_8080 "debug" "tcp://localhost"
  = ([], Err ErrTcpPort)
  /\ Changed with_port_8080 "port" = true
  /\ Port (cOpts with_port_8080) = 8080%Z
  /\ classify ErrTcpPort = InvalidDestination
  /\ error_format ErrTcpPort
     = "tcp scheme requires a port either via --port or in destination URL".
Proof. repeat split. Qed.

(** The theorem where [add] finds [/etc/hostname], a regular file, and
    where it stores a tcp destination. *)
Lemma add_validates_before_registry_witness :
  (add (E := golang) plain "dbg" "unix:///etc/hostname"
   = ([EvStat "/etc/hostname"], Err (ErrNotSocket "/etc/hostname"))
   /\ forallb quiet [EvStat "/etc/hostname"] = true)
  /\ exists uri calls,
       parseDestination (E := golang) "tcp://localhost:8080" = Ok uri
       /\ validateScheme (E := golang) plain (applySocketPath plain uri)
          = (calls, Ok (applySocketPath plain uri)).
Proof.
  split.
  - split; [reflexivity|].
    destruct (add_validates_before_registry (E := golang) plain "dbg"
                "unix:///etc/hostname") as [Hquiet _].
    apply (Hquiet _ (ErrNotSocket "/etc/hostname")); reflexivity.
  - destruct (add_validates_before_registry (E := golang) plain "dbg"
                "tcp://localhost:8080") as [_ Hread].
    apply Hread. vm_compute. now left.
Defined.

(** The theorem on the five kinds of path of the sample file system. *)
Lemma unix_stat_policy_witness :
  let stored uri := add_upsert plain "dbg" uri one_connection in
  add (E := golang) plain "dbg" "unix:///nowhere"
  = ([EvStat "/nowhere"; EvWarn (WarnNotExist "/nowhere");
      EvReadCustomConfig; EvWrite (stored "unix:///nowhere")], Ok tt)
  /\ add (E := golang) plain "dbg" "unix:///root/podman.sock"
     = ([EvStat "/root/podman.sock";
         EvWarn (WarnPermission "/root/podman.sock");
         EvReadCustomConfig; EvWrite (stored "unix:///root/podman.sock")],
        Ok tt)
  /\ (exists err,
        add (E := golang) plain "dbg" "unix:///mnt/stale/podman.sock"
        = ([EvStat "/mnt/stale/podman.sock"], Err (ErrStat err)))
  /\ add (E := golang) plain "dbg" "unix:///etc/hostname"
     = ([EvStat "/etc/hostname"], Err (ErrNotSocket "/etc/hostname"))
  /\ add (E := golang) plain "dbg" "unix:///run/podman/podman.sock"
     = ([EvStat "/run/podman/podman.sock"; EvReadCustomConfig;
         EvWrite (stored "unix:///run/podman/podman.sock")], Ok tt).
Proof.
  intros stored. repeat apply conj.
  - edestruct (unix_stat_policy (E := golang) plain "dbg" "unix:///nowhere")
      as (Hwarn & _);
      [vm_compute; reflexivity | reflexivity | vm_compute; now left |].
    edestruct Hwarn as [_ Hok]; [vm_compute; reflexivity | reflexivity |].
    apply (Hok one_connection); reflexivity.
  - edestruct (unix_stat_policy (E := golang) plain "dbg"
                 "unix:///root/podman.sock")
      as (Hwarn & _);
      [vm_compute; reflexivity | reflexivity | vm_compute; now left |].
    edestruct Hwarn as [_ Hok]; [vm_compute; reflexivity | reflexivity |].
    apply (Hok one_connection); reflexivity.
  - edestruct (unix_stat_policy (E := golang) plain "dbg"
                 "unix:///mnt/stale/podman.sock")
      as (_ & Hfatal & _);
      [vm_compute; reflexivity | reflexivity | vm_compute; now left |].
    eexists. eapply Hfatal; [vm_compute; reflexivity | reflexivity..].
  - edestruct (unix_stat_policy (E := golang) plain "dbg"
                 "unix:///etc/hostname")
      as (_ & _ & Hfile & _);
      [vm_compute; reflexivity | reflexivity | vm_compute; now left |].
    eapply Hfile; [vm_compute; reflexivity | reflexivity].
  - edestruct (unix_stat_policy (E := golang) plain "dbg"
                 "unix:///run/podman/podman.sock")
      as (_ & _ & _ & Hsock);
      [vm_compute; reflexivity | reflexivity | vm_compute; now left |].
    edestruct Hsock as [_ Hok]; [vm_compute; reflexivity | discriminate |].
    apply (Hok one_connection); reflexivity.
Defined.

(** The theorem on a second connection added without and with
    [--default], and on a first connection added without it. *)
Lemma active_pointer_rule_witness :
  config.ActiveService
    (add_upsert plain "dbg" "tcp://localhost:8080" one_connection) = "laptop"
  /\ config.ActiveService
       (add_upsert with_default "dbg" "tcp://localhost:8080" one_connection)
     = "dbg"
  /\ config.ActiveService
       (add_upsert plain "dbg" "tcp://localhost:8080" fresh) = "dbg"
  /\ config.ActiveService
       (create_upsert "ctx" "tcp://h:1" one_connection) = "laptop".
Proof.
  repeat apply conj.
  - destruct (active_pointer_rule (E := golang) plain "dbg"
                "tcp://localhost:8080" "") as (_ & Hadd & _).
    destruct (Hadd (add_upsert plain "dbg" "tcp://localhost:8080"
                      one_connection))
      as (uri & cfg & Hread & _ & Hactive).
    { right. left. reflexivity. }
    injection Hread as <-. exact Hactive.
  - destruct (active_pointer_rule (E := golang) with_default "dbg"
                "tcp://localhost:8080" "") as (_ & Hadd & _).
    destruct (Hadd (add_upsert with_default "dbg" "tcp://localhost:8080"
                      one_connection))
      as (uri & cfg & Hread & _ & Hactive).
    { right. left. reflexivity. }
    injection Hread as <-. exact Hactive.
  - destruct (active_pointer_rule (E := sample "golang" fresh) plain "dbg"
                "tcp://localhost:8080" "") as (_ & Hadd & _).
    destruct (Hadd (add_upsert plain "dbg" "tcp://localhost:8080" fresh))
      as (uri & cfg & Hread & _ & Hactive).
    { right. left. reflexivity. }
    injection Hread as <-. exact Hactive.
  - destruct (active_pointer_rule (E := golang) plain "ctx" ""
                "host=tcp://h:1") as (_ & _ & Hcreate).
    destruct (Hcreate (create_upsert "ctx" "tcp://h:1" one_connection))
      as (uri & cfg & Hread & _ & Hactive).
    { right. left. reflexivity. }
    injection Hread as <-. exact Hactive.
Defined.

(** The theorem on a tcp destination without port, on a unix path that
    is a regular file, and on a scheme nobody knows: [create] stores all
    three and never looks at the file system. *)
Lemma create_skips_validation_witness :
  create (E := golang) "host=tcp://h" "ctx"
  = ([EvReadCustomConfig;
      EvWrite (create_upsert "ctx" "tcp://h" one_connection)], Ok tt)
  /\ create (E := golang) "unix:///etc/hostname" "ctx"
     = ([EvReadCustomConfig;
         EvWrite (create_upsert "ctx" "unix:///etc/hostname" one_connection)],
        Ok tt)
  /\ create (E := golang) "gopher://hole" "ctx"
     = ([EvReadCustomConfig;
         EvWrite (create_upsert "ctx" "gopher://hole" one_connection)],
        Ok tt).
Proof.
  repeat apply conj.
  - edestruct (create_skips_validation (E := golang) "host=tcp://h" "ctx")
      as (_ & _ & _ & Hrun); [reflexivity | vm_compute; reflexivity |].
    destruct (Hrun one_connection eq_refl) as (Htrace & Hok & _).
    specialize (Hok eq_refl).
    destruct (create (E := golang) "host=tcp://h" "ctx") as [calls r].
    simpl in Htrace, Hok. now subst.
  - edestruct (create_skips_validation (E := golang) "unix:///etc/hostname"
                 "ctx")
      as (_ & _ & _ & Hrun); [reflexivity | vm_compute; reflexivity |].
    destruct (Hrun one_connection eq_refl) as (Htrace & Hok & _).
    specialize (Hok eq_refl).
    destruct (create (E := golang) "unix:///etc/hostname" "ctx")
      as [calls r].
    simpl in Htrace, Hok. now subst.
  - edestruct (create_skips_validation (E := golang) "gopher://hole" "ctx")
      as (_ & _ & _ & Hrun); [reflexivity | vm_compute; reflexivity |].
    destruct (Hrun one_connection eq_refl) as (Htrace & Hok & _).
    specialize (Hok eq_refl).
    destruct (create (E := golang) "gopher://hole" "ctx") as [calls r].
    simpl in Htrace, Hok. now subst.
Defined.

(** A map that is allocated and holds nothing is not nil: line 190 takes
    the other branch and the pointer stays as it was. *)
Example allocated_empty_map_is_not_nil :
  config.ActiveService
    (add_upsert plain "dbg" "tcp://localhost:8080"
       {| config.ActiveService := "";
          config.ServiceDestinations := Some ∅ |}) = "".
Proof. reflexivity. Qed.


(** * Further properties of the code *)

(** ** The registry update (add.go:176-197 and 222-233) *)

(** X1 -- what is stored can be read back.  After the update of [add]
    the map is allocated and holds, under the name, the URI with the
    value of [--identity] when that flag was given and with an empty
    identity when it was not; after the update of [create] it holds the
    URI with an empty identity. *)
Theorem upsert_then_lookup (cmd : Cmd) (name uri : string)
    (cfg : config.Config) :
  connection (add_upsert cmd name uri cfg) name = Some (record_of cmd uri)
  /\ connection (create_upsert name uri cfg) name
     = Some {| config.URI := uri; config.Identity := "" |}
  /\ config.ServiceDestinations (add_upsert cmd name uri cfg) <> None
  /\ config.ServiceDestinations (create_upsert name uri cfg) <> None.
Proof.
  unfold add_upsert, create_upsert, connection, record_of.
  destruct (Changed cmd "default"), (Default (cOpts cmd)),
    (Changed cmd "identity"); simpl;
    destruct (config.ServiceDestinations cfg); simpl;
    repeat split;
    first [ apply lookup_insert_eq | apply lookup_singleton_eq
          | discriminate ].
Qed.

Lemma add_upsert_map (cmd : Cmd) (name uri : string) (cfg : config.Config) :
  config.ServiceDestinations (add_upsert cmd name uri cfg)
  = Some match config.ServiceDestinations cfg with
         | None => {[ name := record_of cmd uri ]}
         | Some m => <[ name := record_of cmd uri ]> m
         end.
Proof.
  unfold add_upsert, record_of.
  destruct (Changed cmd "default"), (Default (cOpts cmd)),
    (Changed cmd "identity"); simpl;
    now destruct (config.ServiceDestinations cfg).
Qed.

Lemma create_upsert_map (name uri : string) (cfg : config.Config) :
  config.ServiceDestinations (create_upsert name uri cfg)
  = Some match config.ServiceDestinations cfg with
         | None => {[ name := {| config.URI := uri; config.Identity := "" |} ]}
         | Some m =>
             <[ name := {| config.URI := uri; config.Identity := "" |} ]> m
         end.
Proof.
  unfold create_upsert. now destruct (config.ServiceDestinations cfg).
Qed.

Lemma add_upsert_stored (cmd : Cmd) (name uri : string)
    (cfg : config.Config) :
  connection (add_upsert cmd name uri cfg) name = Some (record_of cmd uri).
Proof.
  unfold connection. rewrite add_upsert_map.
  destruct (config.ServiceDestinations cfg);
    [apply lookup_insert_eq | apply lookup_singleton_eq].
Qed.

(** X2 -- the other connections are left alone.  Under any name but the
    one being stored, the map reads after the update of [add], and
    after that of [create], what it read before. *)
Theorem upsert_keeps_others (cmd : Cmd) (name other uri : string)
    (cfg : config.Config) :
  other <> name ->
  connection (add_upsert cmd name uri cfg) other = connection cfg other
  /\ connection (create_upsert name uri cfg) other = connection cfg other.
Proof.
  intros Hne. unfold connection.
  rewrite add_upsert_map, create_upsert_map.
  destruct (config.ServiceDestinations cfg) as [m|]; split.
  1,2: now apply lookup_insert_ne.
  1,2: now apply lookup_singleton_ne.
Qed.

Lemma upsert_keeps_others_witness :
  connection (add_upsert with_default "dbg" "tcp://localhost:8080"
                one_connection) "laptop" = Some laptop_dst
  /\ connection (create_upsert "ctx" "tcp://h:1" one_connection) "laptop"
     = Some laptop_dst.
Proof.
  split.
  - destruct (upsert_keeps_others with_default "dbg" "laptop"
                "tcp://localhost:8080" one_connection) as [Hadd _];
      [discriminate|].
    rewrite Hadd. reflexivity.
  - destruct (upsert_keeps_others plain "ctx" "laptop" "tcp://h:1"
                one_connection) as [_ Hcreate]; [discriminate|].
    rewrite Hcreate. reflexivity.
Defined.

(** X3 -- the last write wins.  Storing under a name that is already
    there replaces its record and nothing else: the map after two
    updates under one name is the map after the second alone, whatever
    the first stored and whichever of [add] and [create] did it. *)
Theorem upsert_overwrites (cmd1 cmd2 : Cmd) (name uri1 uri2 : string)
    (cfg : config.Config) :
  config.ServiceDestinations
    (add_upsert cmd2 name uri2 (add_upsert cmd1 name uri1 cfg))
  = config.ServiceDestinations (add_upsert cmd2 name uri2 cfg)
  /\ config.ServiceDestinations
       (add_upsert cmd2 name uri2 (create_upsert name uri1 cfg))
     = config.ServiceDestinations (add_upsert cmd2 name uri2 cfg)
  /\ config.ServiceDestinations
       (create_upsert name uri2 (add_upsert cmd1 name uri1 cfg))
     = config.ServiceDestinations (create_upsert name uri2 cfg).
Proof.
  repeat split.
  - rewrite (add_upsert_map cmd2), (add_upsert_map cmd1),
      (add_upsert_map cmd2 _ _ cfg).
    destruct (config.ServiceDestinations cfg);
      [now rewrite insert_insert_eq | now rewrite insert_singleton_eq].
  - rewrite (add_upsert_map cmd2), create_upsert_map,
      (add_upsert_map cmd2 _ _ cfg).
    destruct (config.ServiceDestinations cfg);
      [now rewrite insert_insert_eq | now rewrite insert_singleton_eq].
  - rewrite create_upsert_map, (add_upsert_map cmd1), create_upsert_map.
    destruct (config.ServiceDestinations cfg);
      [now rewrite insert_insert_eq | now rewrite insert_singleton_eq].
Qed.

(** X4 -- the pointer does not come to dangle.  If the map read was nil,
    or if the active-service pointer named one of its connections, then
    after the update of [add], and after that of [create], the pointer
    names a connection of the map. *)
Theorem upsert_keeps_pointer_stored (cmd : Cmd) (name uri : string)
    (cfg : config.Config) :
  config.ServiceDestinations cfg = None \/ active_is_stored cfg ->
  active_is_stored (add_upsert cmd name uri cfg)
  /\ active_is_stored (create_upsert name uri cfg).
Proof.
  intros Hbefore. unfold active_is_stored, connection in *.
  rewrite add_upsert_map, create_upsert_map,
    add_upsert_active, create_upsert_active.
  unfold active_after.
  destruct (config.ServiceDestinations cfg) as [m|].
  - destruct Hbefore as [Hnil | Hstored]; [discriminate Hnil|].
    split.
    + destruct (Changed cmd "default" && Default (cOpts cmd)).
      * rewrite lookup_insert_eq. eauto.
      * apply lookup_insert_is_Some'. now right.
    + apply lookup_insert_is_Some'. now right.
  - split; rewrite lookup_singleton_eq; eauto.
Qed.

Lemma upsert_keeps_pointer_stored_witness :
  active_is_stored (add_upsert plain "dbg" "tcp://localhost:8080" fresh)
  /\ active_is_stored
       (add_upsert with_default "dbg" "tcp://localhost:8080" one_connection)
  /\ active_is_stored (create_upsert "ctx" "tcp://h:1" one_connection).
Proof.
  repeat apply conj.
  - apply (upsert_keeps_pointer_stored plain "dbg" "tcp://localhost:8080"
             fresh). left. reflexivity.
  - apply (upsert_keeps_pointer_stored with_default "dbg"
             "tcp://localhost:8080" one_connection).
    right. exists laptop_dst. reflexivity.
  - apply (upsert_keeps_pointer_stored plain "ctx" "tcp://h:1"
             one_connection).
    right. exists laptop_dst. reflexivity.
Defined.

(** X5 -- connections stored under different names do not interfere.
    The map after two updates of [add] under two different names does
    not depend on their order; only the active-service pointer can. *)
Theorem upserts_commute_on_map (cmd1 cmd2 : Cmd)
    (name1 name2 uri1 uri2 : string) (cfg : config.Config) :
  name1 <> name2 ->
  config.ServiceDestinations
    (add_upsert cmd2 name2 uri2 (add_upsert cmd1 name1 uri1 cfg))
  = config.ServiceDestinations
      (add_upsert cmd1 name1 uri1 (add_upsert cmd2 name2 uri2 cfg)).
Proof.
  intros Hne. rewrite !add_upsert_map.
  destruct (config.ServiceDestinations cfg) as [m|]; f_equal.
  - now apply insert_insert_ne.
  - rewrite <- !insert_empty. now apply insert_insert_ne.
Qed.

Lemma upserts_commute_on_map_witness :
  config.ServiceDestinations
    (add_upsert plain "b" "tcp://b:2" (add_upsert with_default "a" "tcp://a:1" fresh))
  = config.ServiceDestinations
      (add_upsert with_default "a" "tcp://a:1" (add_upsert plain "b" "tcp://b:2" fresh))
  /\ config.ActiveService
       (add_upsert plain "b" "tcp://b:2" (add_upsert plain "a" "tcp://a:1" fresh))
     <> config.ActiveService
          (add_upsert plain "a" "tcp://a:1" (add_upsert plain "b" "tcp://b:2" fresh)).
Proof.
  split.
  - apply (upserts_commute_on_map with_default plain "a" "b"). discriminate.
  - discriminate.
Defined.

(** ** [translateDest], read backwards *)

Lemma translateDest_plain (path : string) :
  strings.Contains path "=" = false -> translateDest path = Ok path.
Proof.
  intros Hpath. unfold translateDest.
  destruct (String.eqb path "") eqn:Hempty.
  - apply String.eqb_eq in Hempty as ->. reflexivity.
  - simpl strings.SplitN. rewrite (Cut_absent _ _ Hpath). reflexivity.
Qed.

(** X6 -- every result of [translateDest] tells what the input was.  A
    destination [d] is returned only for the input [d] itself, free of
    [=], or for the input [host=d] with [d] free of commas.  The error
    of line 246 is returned only for an input [key=value] whose key is
    not [host]; the error of line 251 only for an input
    [host=first,rest], and [rest] is what it names.  No other error is
    ever returned. *)
Theorem translateDest_inversion (path : string) :
  match translateDest path with
  | Ok d =>
      (strings.Contains path "=" = false /\ d = path)
      \/ (path = "host=" +:+ d /\ strings.Contains d "," = false)
  | Err ErrHostRequired =>
      exists key value,
        path = key +:+ "=" +:+ value
        /\ strings.Contains key "=" = false /\ key <> "host"
  | Err (ErrAdditionalOptions rest) =>
      exists first,
        path = "host=" +:+ first +:+ "," +:+ rest
        /\ strings.Contains first "," = false
  | Err _ => False
  end.
Proof.
  destruct (strings.Contains path "=") eqn:Heq.
  - destruct (Cut_present _ _ Heq) as (key & value & -> & Hkey).
    change (key +:+ String "=" value) with (key +:+ "=" +:+ value).
    rewrite (translateDest_keyed _ _ Hkey).
    destruct (String.eqb key "host") eqn:Hhost; simpl negb; cbv iota.
    + apply String.eqb_eq in Hhost as ->. cbv zeta.
      destruct (strings.Contains value ",") eqn:Hcomma.
      * destruct (Cut_present _ _ Hcomma) as (first & rest & -> & Hfirst).
        rewrite (Split_first _ _ _ Hfirst).
        destruct (Split_cons "," rest) as (h & t & Hsplit).
        rewrite Hsplit. cbn [length Nat.ltb Nat.leb skipn].
        rewrite <- Hsplit, Join_Split. now exists first.
      * rewrite (Split_absent _ _ Hcomma). cbn. right. now split.
    + apply String.eqb_neq in Hhost. now exists key, value.
  - rewrite (translateDest_plain _ Heq). left. now split.
Qed.

(** ** Destinations that are never taken for a URI with a scheme *)

Lemma scheme_needs_colon (dest : string) :
  MatchString_scheme dest = true -> strings.Contains dest ":" = true.
Proof.
  intros Hm. apply MatchString_scheme_spec in Hm
    as (c & scheme & rest & -> & _ & _).
  cbn [strings.Contains]. rewrite Contains_app.
  change ("://" +:+ rest) with (String ":" ("//" +:+ rest)).
  cbn [strings.Contains]. rewrite Ascii.eqb_refl.
  now rewrite !orb_true_r.
Qed.

(** X7 -- bare destinations go to ssh.  A destination without any colon
    ([host], [user@host]), and a destination that does not begin with a
    letter (an address such as [10.0.0.5:22], the empty destination),
    is handed to [url.Parse] with [ssh://] in front, by [add] and by
    [create] alike. *)
Theorem bare_destination_is_ssh `{E : Collaborators} (dest : string) :
  strings.Contains dest ":" = false
  \/ match dest with
     | String c _ => is_letter c = false
     | EmptyString => True
     end ->
  defaultScheme dest = "ssh://" +:+ dest
  /\ parseDestination dest
     = match url_Parse ("ssh://" +:+ dest) with
       | inl e => Err (ErrURLParse e)
       | inr uri => Ok uri
       end.
Proof.
  intros Hbare.
  assert (Hno : MatchString_scheme dest = false).
  { destruct Hbare as [Hcolon | Hfirst].
    - destruct (MatchString_scheme dest) eqn:Hm; [|reflexivity].
      apply scheme_needs_colon in Hm. congruence.
    - destruct dest as [|c s]; [reflexivity|]. simpl. now rewrite Hfirst. }
  unfold parseDestination, defaultScheme. now rewrite Hno.
Qed.

Lemma bare_destination_is_ssh_witness :
  defaultScheme "root@server" = "ssh://root@server"
  /\ defaultScheme "10.0.0.5:22" = "ssh://10.0.0.5:22"
  /\ parseDestination (E := golang) "server"
     = Ok {| url.Scheme := "ssh"; url.User := ""; url.Host := "server";
             url.Path := ""; url.RawQuery := ""; url.Fragment := "" |}.
Proof.
  repeat apply conj.
  - apply (bare_destination_is_ssh (E := golang) "root@server").
    left. reflexivity.
  - apply (bare_destination_is_ssh (E := golang) "10.0.0.5:22").
    right. reflexivity.
  - destruct (bare_destination_is_ssh (E := golang) "server") as [_ Hparse];
      [left; reflexivity|].
    rewrite Hparse. reflexivity.
Defined.

(** ** More about the runs of [add] and [create] *)

Section MoreRunFacts.
Context `{E : Collaborators}.

(** X8 -- a scheme nobody knows is stored unvalidated.  With a valid
    [--ssh] mode and a scheme other than [ssh], [unix] and [tcp], [add]
    logs the one warning of line 168 and goes on to store the
    connection, whatever flags were given: no flag is refused, nothing
    is looked up in the file system, and the record written carries the
    overridden path and the identity given. *)
Theorem unknown_scheme_is_stored (cmd : Cmd) (args0 args1 : string)
    (uri0 : url.URL) :
  parseDestination args1 = Ok uri0 ->
  ssh_DefineMode PodmanConfig_SSHMode <> ssh.InvalidMode ->
  url.Scheme uri0 <> "ssh" ->
  url.Scheme uri0 <> "unix" ->
  url.Scheme uri0 <> "tcp" ->
  let uri := applySocketPath cmd uri0 in
  add cmd args0 args1
  = continues_with [EvWarn (WarnUnknownScheme (url.Scheme uri0))]
                   (store cmd args0 uri)
  /\ forall cfg,
       config_ReadCustomConfig = inr cfg ->
       let cfg' := add_upsert cmd args0 (URL_String uri) cfg in
       trace (add cmd args0 args1)
       = [EvWarn (WarnUnknownScheme (url.Scheme uri0));
          EvReadCustomConfig; EvWrite cfg']
       /\ connection cfg' args0 = Some (record_of cmd (URL_String uri)).
Proof.
  intros Hparse Hmode Hssh Hunix Htcp uri.
  assert (Hadd : add cmd args0 args1
                 = continues_with
                     [EvWarn (WarnUnknownScheme (url.Scheme uri0))]
                     (store cmd args0 uri)).
  { rewrite (add_resolved _ _ _ _ Hparse Hmode).
    apply String.eqb_neq in Hssh, Hunix, Htcp. rewrite Hssh.
    unfold validateScheme. rewrite applySocketPath_Scheme, Hunix, Htcp.
    rewrite !bind_run. reflexivity. }
  split; [exact Hadd|]. intros cfg Hread cfg'. split.
  - rewrite Hadd. unfold continues_with. rewrite store_run, Hread.
    reflexivity.
  - apply add_upsert_stored.
Qed.

Lemma agree_but_port_applySocketPath (cmd cmd' : Cmd) (uri : url.URL) :
  agree_but_port cmd cmd' ->
  applySocketPath cmd uri = applySocketPath cmd' uri.
Proof.
  intros (_ & Hsock & _ & Hflag). unfold applySocketPath.
  rewrite (Hflag "socket-path"), Hsock by discriminate. reflexivity.
Qed.

Lemma agree_but_port_validateScheme (cmd cmd' : Cmd) (uri : url.URL) :
  agree_but_port cmd cmd' ->
  validateScheme cmd uri = validateScheme cmd' uri.
Proof.
  intros Hagree. pose proof Hagree as (_ & _ & _ & Hflag).
  unfold validateScheme.
  rewrite (agree_but_port_applySocketPath _ _ _ Hagree).
  rewrite (Hflag "identity"), (Hflag "socket-path") by discriminate.
  reflexivity.
Qed.

Lemma agree_but_port_add_upsert (cmd cmd' : Cmd) (name uri : string)
    (cfg : config.Config) :
  agree_but_port cmd cmd' ->
  add_upsert cmd name uri cfg = add_upsert cmd' name uri cfg.
Proof.
  intros (Hid & _ & Hdef & Hflag). unfold add_upsert.
  rewrite (Hflag "default"), (Hflag "identity"), Hid, Hdef by discriminate.
  reflexivity.
Qed.

(** X9 -- [--port] matters to ssh destinations only.  Two command lines
    that differ at most in [--port] give the same run of [add], call for
    call and result for result, on every destination that does not
    parse or whose scheme is not [ssh]. *)
Theorem port_flag_only_matters_for_ssh (cmd cmd' : Cmd)
    (args0 args1 : string) :
  agree_but_port cmd cmd' ->
  match parseDestination args1 with
  | Ok uri => url.Scheme uri <> "ssh"
  | Err _ => True
  end ->
  add cmd args0 args1 = add cmd' args0 args1.
Proof.
  intros Hagree Hscheme. unfold add.
  destruct (parseDestination args1) as [uri|e]; [|reflexivity].
  rewrite !lift_Ok_bind. cbv zeta.
  rewrite <- (agree_but_port_applySocketPath _ _ _ Hagree).
  rewrite applySocketPath_Scheme.
  apply String.eqb_neq in Hscheme. rewrite Hscheme.
  rewrite <- (agree_but_port_validateScheme _ _ _ Hagree).
  assert (Hstore : forall u, store cmd args0 u = store cmd' args0 u).
  { intros u. rewrite !store_run.
    destruct config_ReadCustomConfig; [reflexivity|]. cbv zeta.
    now rewrite (agree_but_port_add_upsert _ _ _ _ _ Hagree). }
  rewrite !bind_run.
  destruct (returned (validateScheme _ _)); now rewrite ?Hstore.
Qed.

Lemma validateScheme_stat (cmd : Cmd) (uri : url.URL) (path : string) :
  In (EvStat path) (trace (validateScheme cmd (applySocketPath cmd uri))) ->
  url.Scheme uri = "unix"
  /\ Changed cmd "identity" = false
  /\ path = url.Path (applySocketPath cmd uri).
Proof.
  unfold validateScheme.
  rewrite applySocketPath_twice, applySocketPath_Scheme.
  destruct (String.eqb (url.Scheme uri) "unix") eqn:Hunix.
  - apply String.eqb_eq in Hunix.
    destruct (Changed cmd "identity"); [intros []|].
    rewrite bind_run, checkSocket_run.
    destruct (os_Stat _) as [err|info].
    + destruct (is_ErrNotExist err); [|destruct (is_ErrPermission err)];
        simpl; intuition congruence.
    + destruct (Z.eqb _ 0); simpl; intuition congruence.
  - destruct (String.eqb (url.Scheme uri) "tcp").
    + destruct (Changed cmd "socket-path"); [intros []|].
      destruct (Changed cmd "identity"); [intros []|].
      destruct (String.eqb (URL_Port _) ""); intros [].
    + simpl. intuition discriminate.
Qed.

Lemma validateScheme_stat_once (cmd : Cmd) (uri : url.URL) :
  length (List.filter is_stat (trace (validateScheme cmd uri))) <= 1.
Proof.
  unfold validateScheme.
  destruct (String.eqb (url.Scheme uri) "unix").
  - destruct (Changed cmd "identity"); [simpl; lia|].
    rewrite bind_run, checkSocket_run.
    destruct (os_Stat _) as [err|info].
    + destruct (is_ErrNotExist err); [|destruct (is_ErrPermission err)];
        simpl; lia.
    + destruct (Z.eqb _ 0); simpl; lia.
  - destruct (String.eqb (url.Scheme uri) "tcp").
    + destruct (Changed cmd "socket-path"); [simpl; lia|].
      destruct (Changed cmd "identity"); [simpl; lia|].
      destruct (String.eqb (URL_Port _) ""); simpl; lia.
    + simpl. lia.
Qed.

Lemma store_no_stat (cmd : Cmd) (name : string) (uri : url.URL) :
  List.filter is_stat (trace (store cmd name uri)) = [].
Proof.
  rewrite store_run. now destruct config_ReadCustomConfig.
Qed.

(** X10 -- the file system is asked about unix sockets only.  A run of
    [add] calls [os.Stat] at most once; and when it does, the
    destination has parsed to scheme [unix], [--identity] was not given,
    and the path asked about is the resolved one. *)
Theorem stat_only_for_unix (cmd : Cmd) (args0 args1 : string) :
  length (List.filter is_stat (trace (add cmd args0 args1))) <= 1
  /\ forall path,
       In (EvStat path) (trace (add cmd args0 args1)) ->
       exists uri0,
         parseDestination args1 = Ok uri0
         /\ url.Scheme uri0 = "unix"
         /\ Changed cmd "identity" = false
         /\ path = url.Path (applySocketPath cmd uri0).
Proof.
  destruct (add_path_total cmd args0 args1) as
    [ e0 Hp | uri1 Hp Hm | uri1 Hp Hm Hs1
    | uri1 calls0 e0 Hp Hm Hs1 Hv | uri1 calls0 Hp Hm Hs1 Hv ].
  - split; [simpl; lia | intros path []].
  - split; [simpl; lia | intros path []].
  - split; [simpl; lia|]. intros path [Hin | []]. discriminate Hin.
  - pose proof (validateScheme_stat_once cmd (applySocketPath cmd uri1))
      as Honce.
    rewrite Hv in Honce. split; [exact Honce|].
    intros path Hin. exists uri1. split; [exact Hp|].
    apply validateScheme_stat. now rewrite Hv.
  - pose proof (validateScheme_stat_once cmd (applySocketPath cmd uri1))
      as Honce.
    rewrite Hv in Honce. simpl in Honce |- *. split.
    + now rewrite List.filter_app, store_no_stat, app_nil_r.
    + intros path Hin. exists uri1. split; [exact Hp|].
      apply validateScheme_stat. rewrite Hv. simpl.
      apply in_app_or in Hin as [Hin | Hin]; [exact Hin|].
      exfalso. pose proof (store_no_stat cmd args0 (applySocketPath cmd uri1))
        as Hnone.
      assert (Hf : In (EvStat path)
                     (List.filter is_stat
                        (trace (store cmd args0 (applySocketPath cmd uri1)))))
        by (apply List.filter_In; now split).
      rewrite Hnone in Hf. destruct Hf.
Qed.

End MoreRunFacts.

Lemma unknown_scheme_is_stored_witness :
  add (E := golang) (cmdline with_identity ["identity"; "socket-path"])
      "hole" "gopher://hole/0"
  = continues_with [EvWarn (WarnUnknownScheme "gopher")]
      (store (E := golang)
         (cmdline with_identity ["identity"; "socket-path"]) "hole"
         {| url.Scheme := "gopher"; url.User := ""; url.Host := "hole";
            url.Path := "/x"; url.RawQuery := ""; url.Fragment := "" |}).
Proof.
  edestruct (unknown_scheme_is_stored (E := golang)
               (cmdline with_identity ["identity"; "socket-path"])
               "hole" "gopher://hole/0") as [Hadd _];
    [vm_compute; reflexivity | discriminate..|].
  exact Hadd.
Defined.

Lemma port_flag_only_matters_for_ssh_witness :
  add (E := golang) plain "debug" "tcp://localhost"
  = add (E := golang) with_port_8080 "debug" "tcp://localhost".
Proof.
  apply (port_flag_only_matters_for_ssh (E := golang)).
  - repeat split. intros flag Hflag. unfold plain, with_port_8080, cmdline.
    simpl. apply String.eqb_neq in Hflag. now rewrite Hflag.
  - vm_compute. discriminate.
Defined.

Lemma stat_only_for_unix_witness :
  exists uri0,
    parseDestination (E := golang) "unix:///etc/hostname" = Ok uri0
    /\ url.Scheme uri0 = "unix"
    /\ Changed plain "identity" = false
    /\ "/etc/hostname" = url.Path (applySocketPath plain uri0).
Proof.
  destruct (stat_only_for_unix (E := golang) plain "dbg"
              "unix:///etc/hostname") as [_ Honly].
  apply Honly. vm_compute. now left.
Defined.

Section PersistenceFacts.
Context `{E : Collaborators}.

Lemma translateDest_errors (path : string) (e : error) :
  translateDest path = Err e ->
  e = ErrHostRequired \/ exists rest, e = ErrAdditionalOptions rest.
Proof.
  unfold translateDest.
  destruct (String.eqb path ""); [discriminate|].
  destruct (Nat.eqb _ 1); [discriminate|].
  destruct (negb _); [intros [= <-]; now left|].
  destruct (Nat.ltb 1 _); [intros [= <-]; eauto | discriminate].
Qed.

(** The shape of a run of [add] that writes. *)
Lemma add_write_inv (cmd : Cmd) (args0 args1 : string)
    (cfg' : config.Config) :
  In (EvWrite cfg') (trace (add cmd args0 args1)) ->
  exists before cfg,
    config_ReadCustomConfig = inr cfg
    /\ forallb quiet before = true
    /\ add cmd args0 args1
       = (before ++ [EvReadCustomConfig; EvWrite cfg'],
          match Config_Write cfg' with
          | Some text => Err (ErrWrite text)
          | None => Ok tt
          end).
Proof.
  intros Hin.
  destruct (add_path_total cmd args0 args1) as
    [ e0 Hp | uri1 Hp Hm | uri1 Hp Hm Hs1
    | uri1 calls0 e0 Hp Hm Hs1 Hv | uri1 calls0 Hp Hm Hs1 Hv ];
    simpl in Hin.
  - destruct Hin.
  - destruct Hin.
  - destruct Hin as [Hin | []]. discriminate Hin.
  - pose proof (validateScheme_outcome cmd uri1) as [Hq _].
    rewrite Hv in Hq. simpl in Hq.
    rewrite forallb_forall in Hq. apply Hq in Hin. discriminate Hin.
  - pose proof (validateScheme_outcome cmd uri1) as [Hq _].
    rewrite Hv in Hq. simpl in Hq.
    apply in_app_or in Hin as [Hin | Hin].
    { rewrite forallb_forall in Hq. apply Hq in Hin. discriminate Hin. }
    rewrite store_run in Hin |- *.
    destruct config_ReadCustomConfig as [text|cfg] eqn:Hread; simpl in Hin.
    + destruct Hin as [Hin | []]. discriminate Hin.
    + destruct Hin as [Hin | [Hin | []]]; [discriminate Hin|].
      injection Hin as <-. exists calls0, cfg. now repeat split.
Qed.

(** X11 -- the three ways [create] can end.  It returns an error of the
    translator or of the parser without having called anything; or the
    error of [ReadCustomConfig] after that one call; or, after reading,
    it writes once and returns what [Write] returns. *)
Theorem create_outcomes (dockerPath args0 : string) :
  (exists e,
     create dockerPath args0 = ([], Err e)
     /\ (e = ErrHostRequired
         \/ (exists rest, e = ErrAdditionalOptions rest)
         \/ (exists text, e = ErrURLParse text)))
  \/ (exists text,
        create dockerPath args0
        = ([EvReadCustomConfig], Err (ErrReadCustomConfig text)))
  \/ (exists cfg,
        create dockerPath args0
        = ([EvReadCustomConfig; EvWrite cfg],
           match Config_Write cfg with
           | Some text => Err (ErrWrite text)
           | None => Ok tt
           end)).
Proof.
  pose proof (translateDest_errors dockerPath) as Hinv.
  destruct (translateDest dockerPath) as [dest|e] eqn:Htr.
  - destruct (parseDestination dest) as [uri|e] eqn:Hparse.
    + rewrite (create_run _ _ _ _ Htr Hparse).
      destruct config_ReadCustomConfig as [text|cfg]; [eauto|].
      right. right. eauto.
    + left. exists e. unfold create.
      rewrite Htr, lift_Ok_bind, Hparse. split; [reflexivity|].
      unfold parseDestination in Hparse.
      destruct (url_Parse _); inversion Hparse. eauto.
  - left. exists e. unfold create. rewrite Htr. split; [reflexivity|].
    destruct (Hinv e eq_refl) as [-> | [rest ->]]; eauto.
Qed.

(** X12 -- [Write] is the last thing [add] does.  When a run of [add]
    holds a call to [Write], that call is the last one, it comes right
    after the call to [ReadCustomConfig], only [os.Stat] and the logger
    were called before, and [add] returns what [Write] returned: nil,
    or its error as it is. *)
Theorem write_is_last (cmd : Cmd) (args0 args1 : string)
    (cfg' : config.Config) :
  In (EvWrite cfg') (trace (add cmd args0 args1)) ->
  exists before,
    forallb quiet before = true
    /\ add cmd args0 args1
       = (before ++ [EvReadCustomConfig; EvWrite cfg'],
          match Config_Write cfg' with
          | Some text => Err (ErrWrite text)
          | None => Ok tt
          end).
Proof.
  intros Hin.
  destruct (add_write_inv _ _ _ _ Hin) as (before & cfg & _ & Hq & Hadd).
  now exists before.
Qed.

(** X13 -- nothing is written when the registry cannot be read.  If
    [ReadCustomConfig] fails, no run of [add] or [create] calls [Write],
    [create] does not succeed, and a run of [add] that has called
    [ReadCustomConfig] returns its error. *)
Theorem read_failure_writes_nothing (text : string) (cmd : Cmd)
    (args0 args1 dockerPath : string) :
  config_ReadCustomConfig = inl text ->
  (forall cfg, ~ In (EvWrite cfg) (trace (add cmd args0 args1)))
  /\ (forall cfg, ~ In (EvWrite cfg) (trace (create dockerPath args0)))
  /\ returned (create dockerPath args0) <> Ok tt
  /\ (In EvReadCustomConfig (trace (add cmd args0 args1)) ->
      returned (add cmd args0 args1) = Err (ErrReadCustomConfig text)).
Proof.
  intros Hread.
  assert (Hcreate :
            trace (create dockerPath args0) = []
            \/ create dockerPath args0
               = ([EvReadCustomConfig], Err (ErrReadCustomConfig text))).
  { destruct (translateDest dockerPath) as [dest|e] eqn:Htr.
    - destruct (parseDestination dest) as [uri|e] eqn:Hparse.
      + right. now rewrite (create_run _ _ _ _ Htr Hparse), Hread.
      + left. unfold create. now rewrite Htr, lift_Ok_bind, Hparse.
    - left. unfold create. now rewrite Htr. }
  repeat split.
  - intros cfg Hin.
    destruct (add_write_inv _ _ _ _ Hin) as (_ & cfg0 & Hgood & _).
    congruence.
  - intros cfg Hin. destruct Hcreate as [Hc | Hc]; rewrite Hc in Hin.
    + destruct Hin.
    + destruct Hin as [Hin | []]. discriminate Hin.
  - destruct Hcreate as [Hc | Hc]; [|now rewrite Hc].
    destruct (translateDest dockerPath) as [dest|e] eqn:Htr.
    + destruct (parseDestination dest) as [uri|e] eqn:Hparse.
      * rewrite (create_run _ _ _ _ Htr Hparse), Hread in Hc.
        discriminate Hc.
      * unfold create. now rewrite Htr, lift_Ok_bind, Hparse.
    + unfold create. now rewrite Htr.
  - intros Hin.
    destruct (add_path_total cmd args0 args1) as
      [ e0 Hp | uri1 Hp Hm | uri1 Hp Hm Hs1
      | uri1 calls0 e0 Hp Hm Hs1 Hv | uri1 calls0 Hp Hm Hs1 Hv ];
      simpl in Hin |- *.
    + destruct Hin.
    + destruct Hin.
    + destruct Hin as [Hin | []]. discriminate Hin.
    + pose proof (validateScheme_outcome cmd uri1) as [Hq _].
      rewrite Hv in Hq. simpl in Hq.
      rewrite forallb_forall in Hq. apply Hq in Hin. discriminate Hin.
    + now rewrite store_run, Hread.
Qed.

End PersistenceFacts.

Lemma write_is_last_witness :
  exists before,
    forallb quiet before = true
    /\ add (E := golang) plain "dbg" "unix:///nowhere"
       = (before
            ++ [EvReadCustomConfig;
                EvWrite (add_upsert plain "dbg" "unix:///nowhere"
                           one_connection)],
          Ok tt).
Proof.
  destruct (write_is_last (E := golang) plain "dbg" "unix:///nowhere"
              (add_upsert plain "dbg" "unix:///nowhere" one_connection))
    as (before & Hq & Hadd).
  - vm_compute. right. right. right. now left.
  - exists before. split; [exact Hq | exact Hadd].
Defined.

Lemma read_failure_writes_nothing_witness :
  returned (add (E := unreadable) plain "dbg" "tcp://localhost:8080")
  = Err (ErrReadCustomConfig "permission denied")
  /\ returned (create (E := unreadable) "host=tcp://h:1" "ctx") <> Ok tt.
Proof.
  destruct (read_failure_writes_nothing (E := unreadable) "permission denied"
              plain "dbg" "tcp://localhost:8080" "host=tcp://h:1" eq_refl)
    as (_ & _ & Hcreate & Hadd).
  split; [|exact Hcreate]. apply Hadd. vm_compute. now left.
Defined.

Section Composition.
Context `{E : Collaborators}.

Lemma no_flag_add_upsert (cmd : Cmd) (name uri : string)
    (cfg : config.Config) :
  no_flag_given cmd ->
  add_upsert cmd name uri cfg = create_upsert name uri cfg.
Proof.
  intros (Hdef & Hid & _). unfold add_upsert, create_upsert.
  now rewrite Hdef, Hid.
Qed.

(** X14 -- [add] without flags is validation, then [create].  For a
    destination that the translator returns and the parser accepts with
    a scheme other than [ssh], under a valid [--ssh] mode and with none
    of [--default], [--identity] and [--socket-path] given: when the
    validation of the scheme passes, the run of [add] on the destination
    is the calls of that validation followed by the run of [create] on
    the legacy form; it stores the same record and returns the same
    result. *)
Theorem add_without_flags_is_create (cmd : Cmd)
    (name dockerPath dest : string) (uri : url.URL) (calls : list Event) :
  no_flag_given cmd ->
  translateDest dockerPath = Ok dest ->
  parseDestination dest = Ok uri ->
  ssh_DefineMode PodmanConfig_SSHMode <> ssh.InvalidMode ->
  url.Scheme uri <> "ssh" ->
  validateScheme cmd uri = (calls, Ok uri) ->
  add cmd name dest = continues_with calls (create dockerPath name).
Proof.
  intros Hnone Htr Hparse Hmode Hssh Hvalid.
  pose proof Hnone as (_ & _ & Hsock).
  rewrite (add_resolved _ _ _ _ Hparse Hmode).
  apply String.eqb_neq in Hssh. rewrite Hssh.
  rewrite (applySocketPath_unchanged _ _ Hsock), Hvalid, bind_run.
  cbn [returned trace fst snd]. unfold continues_with.
  rewrite store_run, (create_run _ _ _ _ Htr Hparse).
  destruct config_ReadCustomConfig as [text|cfg]; [reflexivity|].
  cbv zeta. now rewrite (no_flag_add_upsert _ _ _ _ Hnone).
Qed.

(** X15 -- the socket-path override wins.  For a unix destination, with
    a valid [--ssh] mode, [--socket-path] given and [--identity] not:
    the first call of [add] is [os.Stat] on the value of the flag, not
    on the path of the destination, and whatever configuration is
    written holds under the name the URI with its path replaced by that
    value, and an empty identity. *)
Theorem socket_path_override_wins (cmd : Cmd) (args0 args1 : string)
    (uri0 : url.URL) :
  parseDestination args1 = Ok uri0 ->
  ssh_DefineMode PodmanConfig_SSHMode <> ssh.InvalidMode ->
  url.Scheme uri0 = "unix" ->
  Changed cmd "identity" = false ->
  Changed cmd "socket-path" = true ->
  let path := UDSPath (cOpts cmd) in
  (exists rest, trace (add cmd args0 args1) = EvStat path :: rest)
  /\ forall cfg',
       In (EvWrite cfg') (trace (add cmd args0 args1)) ->
       connection cfg' args0
       = Some {| config.URI := URL_String (url.set_Path uri0 path);
                 config.Identity := "" |}.
Proof.
  intros Hparse Hmode Hs Hid Hsock path.
  pose proof (add_unix cmd args0 args1 uri0 Hparse Hmode Hs Hid) as Hadd.
  cbv zeta in Hadd. unfold applySocketPath in Hadd. rewrite Hsock in Hadd.
  change (url.Path (url.set_Path uri0 (UDSPath (cOpts cmd)))) with path
    in Hadd.
  rewrite checkSocket_run in Hadd. rewrite Hadd. clear Hadd.
  assert (Hstore : forall calls cfg',
            forallb quiet calls = true ->
            In (EvWrite cfg')
               (calls ++ trace (store cmd args0 (url.set_Path uri0 path))) ->
            connection cfg' args0
            = Some {| config.URI := URL_String (url.set_Path uri0 path);
                      config.Identity := "" |}).
  { intros calls cfg' Hq Hin.
    apply in_app_or in Hin as [Hin | Hin].
    { rewrite forallb_forall in Hq. apply Hq in Hin. discriminate Hin. }
    rewrite store_run in Hin.
    destruct config_ReadCustomConfig as [text|cfg]; simpl in Hin.
    - destruct Hin as [Hin | []]. discriminate Hin.
    - destruct Hin as [Hin | [Hin | []]]; [discriminate Hin|].
      injection Hin as <-. rewrite add_upsert_stored.
      unfold record_of. now rewrite Hid. }
  destruct (os_Stat path) as [err|info].
  - destruct (is_ErrNotExist err); [|destruct (is_ErrPermission err)];
      cbn [returned trace fst snd continues_with app];
      (split; [eauto|]); intros cfg' Hin.
    + apply (Hstore [EvStat path; EvWarn (WarnNotExist path)] cfg' eq_refl
               Hin).
    + apply (Hstore [EvStat path; EvWarn (WarnPermission path)] cfg' eq_refl
               Hin).
    + destruct Hin as [Hin | []]. discriminate Hin.
  - destruct (Z.eqb _ 0);
      cbn [returned trace fst snd continues_with app];
      (split; [eauto|]); intros cfg' Hin.
    + destruct Hin as [Hin | []]. discriminate Hin.
    + apply (Hstore [EvStat path] cfg' eq_refl Hin).
Qed.

End Composition.

Lemma add_without_flags_is_create_witness :
  add (E := golang) plain "ctx" "tcp://h:1"
  = continues_with [] (create (E := golang) "host=tcp://h:1" "ctx")
  /\ add (E := golang) plain "ctx" "gopher://hole"
     = continues_with [EvWarn (WarnUnknownScheme "gopher")]
         (create (E := golang) "gopher://hole" "ctx").
Proof.
  split.
  - eapply (add_without_flags_is_create (E := golang) plain "ctx"
              "host=tcp://h:1" "tcp://h:1");
      [ repeat split | reflexivity | vm_compute; reflexivity
      | discriminate | discriminate | vm_compute; reflexivity ].
  - eapply (add_without_flags_is_create (E := golang) plain "ctx"
              "gopher://hole" "gopher://hole");
      [ repeat split | reflexivity | vm_compute; reflexivity
      | discriminate | discriminate | vm_compute; reflexivity ].
Defined.

Lemma socket_path_override_wins_witness :
  exists rest,
    trace (add (E := golang) (cmdline with_identity ["socket-path"]) "dbg"
               "unix:///run/podman/podman.sock")
    = EvStat "/x" :: rest.
Proof.
  edestruct (socket_path_override_wins (E := golang)
               (cmdline with_identity ["socket-path"]) "dbg"
               "unix:///run/podman/podman.sock") as [Hfirst _];
    [ vm_compute; reflexivity | discriminate | reflexivity
    | reflexivity | reflexivity |].
  exact Hfirst.
Defined.

(** ** Where a validated destination goes *)




Section Recording.
Context `{E : Collaborators}.
Variable setup :
  ssh.ConnectionCreateOptions -> ssh.EngineMode -> string + config.Destination.





End Recording.

